(** * cloneRepo: acquisition of a repository into a local cache directory

    A shallow embedding of [src/lib/git/cloneRepo.ts].  The function reads the
    process environment, touches the file system, spawns the [git] executable
    and logs to the console.  Those effects are modelled by a state-and-error
    monad over a host description: the file system is a finite map from path
    strings to nodes, every effect appends an event to a trace, and the
    behaviour of the outside world (what a spawned process answers and what
    it does to the files, whether the operating system refuses a file-system
    mutation) is given by oracles that are indexed by the number of effects
    performed so far, so that any behaviour of the outside world along a run
    is some host.

    Limits of the model: strings are byte strings and [toLowerCase] lowers
    the ASCII letters; an [await] is a sequential step; the file system
    is a map that stands for a tree (a path that is present has its ancestors
    present as directories, and no path holds a NUL byte); [path.join],
    [path.dirname] and [util.inspect] are components of the host. *)

From Stdlib Require Import ZArith Ascii String Bool List Lia.
From stdpp Require Import base option list strings gmap.
Import ListNotations.

(** ** JavaScript strings

    Strings are byte strings; the operations below are the ones the source
    calls on [String.prototype]. *)

Module Js.

Definition quote : string := String "034"%char EmptyString.
Definition backslash : string := String "092"%char EmptyString.

(** A string is truthy when it is not empty. *)
Definition truthy (s : string) : bool :=
  match s with
  | EmptyString => false
  | String _ _ => true
  end.

(** [undefined] is falsy. *)
Definition truthy_opt (o : option string) : bool :=
  match o with
  | Some s => truthy s
  | None => false
  end.

(** [a || b] on values that are strings or [undefined]. *)
Definition or_else (a : option string) (b : string) : string :=
  match a with
  | Some s => if truthy s then s else b
  | None => b
  end.

(** [s.split(sep)] for a separator made of one character. *)
Fixpoint split (sep : ascii) (s : string) : list string :=
  match s with
  | EmptyString => [EmptyString]
  | String c s' =>
      if Ascii.eqb c sep then EmptyString :: split sep s'
      else match split sep s' with
           | [] => [String c EmptyString]
           | seg :: rest => String c seg :: rest
           end
  end.

Fixpoint startsWith (s needle : string) : bool :=
  match needle, s with
  | EmptyString, _ => true
  | String _ _, EmptyString => false
  | String a needle', String b s' => Ascii.eqb a b && startsWith s' needle'
  end.

(** [s.includes(needle)]. *)
Fixpoint includes (s needle : string) : bool :=
  startsWith s needle ||
  match s with
  | EmptyString => false
  | String _ s' => includes s' needle
  end.

Definition lower_char (c : ascii) : ascii :=
  let n := nat_of_ascii c in
  if (Nat.leb 65 n && Nat.leb n 90)%bool then ascii_of_nat (n + 32) else c.

(** [s.toLowerCase()]. *)
Fixpoint toLowerCase (s : string) : string :=
  match s with
  | EmptyString => EmptyString
  | String c s' => String (lower_char c) (toLowerCase s')
  end.

Fixpoint has_char (c : ascii) (s : string) : bool :=
  match s with
  | EmptyString => false
  | String d s' => Ascii.eqb c d || has_char c s'
  end.

End Js.

(** ** JSON.stringify

    Only the values the source serialises: an object literal whose fields
    are strings and booleans. *)

Module Json.

Inductive value : Type :=
| Str (s : string)
| Bool (b : bool).

Definition object : Type := list (string * value).

Definition hex_digit (n : nat) : ascii :=
  if Nat.ltb n 10 then ascii_of_nat (48 + n) else ascii_of_nat (87 + n).

(** QuoteJSONString, one code unit at a time. *)
Definition escape_char (c : ascii) : string :=
  let n := nat_of_ascii c in
  if Nat.eqb n 34 then Js.backslash +:+ Js.quote
  else if Nat.eqb n 92 then Js.backslash +:+ Js.backslash
  else if Nat.eqb n 8 then Js.backslash +:+ "b"
  else if Nat.eqb n 12 then Js.backslash +:+ "f"
  else if Nat.eqb n 10 then Js.backslash +:+ "n"
  else if Nat.eqb n 13 then Js.backslash +:+ "r"
  else if Nat.eqb n 9 then Js.backslash +:+ "t"
  else if Nat.ltb n 32 then
    Js.backslash +:+ "u00" +:+
    String (hex_digit (Nat.div n 16)) (String (hex_digit (Nat.modulo n 16)) EmptyString)
  else String c EmptyString.

Fixpoint escape (s : string) : string :=
  match s with
  | EmptyString => EmptyString
  | String c s' => escape_char c +:+ escape s'
  end.

Definition quote_string (s : string) : string :=
  Js.quote +:+ escape s +:+ Js.quote.

Definition stringify_value (v : value) : string :=
  match v with
  | Str s => quote_string s
  | Bool true => "true"
  | Bool false => "false"
  end.

Definition stringify_field (f : string * value) : string :=
  quote_string (fst f) +:+ ":" +:+ stringify_value (snd f).

Fixpoint stringify_fields (fs : list (string * value)) : string :=
  match fs with
  | [] => EmptyString
  | [f] => stringify_field f
  | f :: rest => stringify_field f +:+ "," +:+ stringify_fields rest
  end.

Definition stringify (o : object) : string :=
  "{" +:+ stringify_fields o +:+ "}".

(** The code units QuoteJSONString does not copy as they are. *)
Definition needs_escape (c : ascii) : bool :=
  let n := nat_of_ascii c in
  Nat.eqb n 34 || Nat.eqb n 92 || Nat.ltb n 32.

Fixpoint plain (s : string) : bool :=
  match s with
  | EmptyString => true
  | String c s' => negb (needs_escape c) && plain s'
  end.

End Json.

(** ** The host: environment, file system, processes, console *)

Inductive node : Type :=
| Dir
| File (data : string).

(** The options object handed to [exec]; an absent key is [None]. *)
Record ExecOptions : Type := mkExecOptions {
  maxBuffer : option Z;
  timeout : option Z
}.

(** A settled [execAsync] promise. *)
Inductive ExecOutcome : Type :=
| Resolved (stdout stderr : string)
| Rejected (message : string).

Inductive Console : Type :=
| ConsoleLog
| ConsoleWarn
| ConsoleError.

Inductive Event : Type :=
| EvExists (path : string)
| EvMkdir (path : string)
| EvWrite (path data : string)
| EvExec (command : string) (options : ExecOptions)
| EvConsole (level : Console) (args : list string).

(** [env] is [process.env], [platform] is [process.platform] (which
    [os.platform()] returns as well), [join] and [dirname] are [path.join]
    and [path.dirname] of the host, [inspect] is [util.inspect] on strings.
    [spawn n cmd opts fs] is what the [n]-th effect of the run, a child
    process, answers and the file system it leaves; [fs_fault n ev] is the
    message of the error the operating system raises on the [n]-th effect, a
    file-system mutation, if it refuses it. *)
Record Host : Type := mkHost {
  env : gmap string string;
  platform : string;
  join : string -> string -> string;
  dirname : string -> string;
  inspect : string -> string;
  spawn : nat -> string -> ExecOptions -> gmap string node -> ExecOutcome * gmap string node;
  fs_fault : nat -> Event -> option string
}.

Record State : Type := mkState {
  files : gmap string node;
  trace : list Event
}.

Definition record (e : Event) (st : State) : State :=
  {| files := files st; trace := trace st ++ [e] |}.

(** ** The monad: a thrown [Error] is its message *)

Definition M (A : Type) : Type := State -> (string + A) * State.

Definition ret {A} (a : A) : M A := fun st => (inr a, st).

Definition throw {A} (message : string) : M A := fun st => (inl message, st).

Definition bind {A B} (m : M A) (k : A -> M B) : M B :=
  fun st =>
    match m st with
    | (inr a, st') => k a st'
    | (inl e, st') => (inl e, st')
    end.

Definition try_catch {A} (m : M A) (handler : string -> M A) : M A :=
  fun st =>
    match m st with
    | (inr a, st') => (inr a, st')
    | (inl e, st') => handler e st'
    end.

Notation "'let*' x := m 'in' k" := (bind m (fun x => k))
  (at level 10, x name, m at level 100, k at level 200).
Notation "'let*' ' p := m 'in' k" := (bind m (fun p => k))
  (at level 10, p pattern, m at level 100, k at level 200).

(** ** The effects the source performs *)

Section Effects.

Variable h : Host.

(** [console.log], [console.warn], [console.error]. *)
Definition console (level : Console) (args : list string) : M unit :=
  fun st => (inr tt, record (EvConsole level args) st).

(** [existsSync(p)]: never throws.  The map of the files stands for a
    tree and holds no path with a NUL byte, for which [existsSync] answers
    [false]. *)
Definition existsSync (p : string) : M bool :=
  fun st => (inr (bool_decide (is_Some (files st !! p))), record (EvExists p) st).

(** The proper ancestors of a path, nearest first: [path.dirname] iterated
    until it no longer moves (at a root), which takes no more steps than the
    path has characters.  A path is not among its own ancestors. *)
Fixpoint ancestors_from (fuel : nat) (p : string) : list string :=
  match fuel with
  | O => []
  | S fuel' =>
      let d := dirname h p in
      if String.eqb d p then [] else d :: ancestors_from fuel' d
  end.

Definition ancestors (p : string) : list string :=
  List.filter (fun d => negb (String.eqb d p)) (ancestors_from (String.length p) p).

Definition is_file (fs : gmap string node) (p : string) : bool :=
  match fs !! p with
  | Some (File _) => true
  | _ => false
  end.

(** Creates [p] as a directory unless something is there. *)
Definition make_dir (p : string) (fs : gmap string node) : gmap string node :=
  match fs !! p with
  | Some _ => fs
  | None => <[p := Dir]> fs
  end.

Definition has_nul (p : string) : bool := Js.has_char "000" p.

(** The message of the [TypeError] that the validation of a path with a NUL
    byte raises (ERR_INVALID_ARG_VALUE, the rendering of the value cut after
    128 characters). *)
Definition invalid_path (p : string) : string :=
  let inspected := inspect h p in
  "The argument 'path' must be a string, Uint8Array, or URL without null bytes. Received "
  +:+ (if Nat.ltb 128 (String.length inspected)
       then String.substring 0 128 inspected +:+ "..."
       else inspected).

(** [mkdirSync(p, { recursive: true })]: creates [p] and its missing
    ancestors; an existing directory is not an error, a regular file at the
    path or above it is. *)
Definition mkdirSync (p : string) : M unit :=
  fun st =>
    let st' := record (EvMkdir p) st in
    if has_nul p then (inl (invalid_path p), st')
    else
      match fs_fault h (length (trace st)) (EvMkdir p) with
      | Some message => (inl message, st')
      | None =>
          if existsb (is_file (files st)) (ancestors p)
          then (inl ("ENOTDIR: not a directory, mkdir '" +:+ p +:+ "'"), st')
          else if is_file (files st) p
          then (inl ("EEXIST: file already exists, mkdir '" +:+ p +:+ "'"), st')
          else (inr tt,
                {| files := foldr make_dir (files st) (p :: ancestors p);
                   trace := trace st' |})
      end.

(** [writeFileSync(p, data)]: replaces or creates a file in an existing
    directory, refuses a directory. *)
Definition writeFileSync (p data : string) : M unit :=
  fun st =>
    let st' := record (EvWrite p data) st in
    if has_nul p then (inl (invalid_path p), st')
    else
      match fs_fault h (length (trace st)) (EvWrite p data) with
      | Some message => (inl message, st')
      | None =>
          if existsb (is_file (files st)) (ancestors p)
          then (inl ("ENOTDIR: not a directory, open '" +:+ p +:+ "'"), st')
          else
            match files st !! dirname h p with
            | Some Dir =>
                match files st !! p with
                | Some Dir =>
                    (inl ("EISDIR: illegal operation on a directory, open '" +:+ p +:+ "'"),
                     st')
                | _ =>
                    (inr tt,
                     {| files := <[p := File data]> (files st); trace := trace st' |})
                end
            | _ => (inl ("ENOENT: no such file or directory, open '" +:+ p +:+ "'"), st')
            end
      end.

(** [await execAsync(cmd, opts)]: the promise resolves with the two output
    streams or rejects with an error. *)
Definition execAsync (cmd : string) (opts : ExecOptions) : M (string * string) :=
  fun st =>
    let '(outcome, fs') := spawn h (length (trace st)) cmd opts (files st) in
    let st' := {| files := fs'; trace := trace st ++ [EvExec cmd opts] |} in
    match outcome with
    | Resolved out err => (inr (out, err), st')
    | Rejected message => (inl message, st')
    end.

End Effects.

(** ** cloneRepo *)

Section CloneRepo.

Variable h : Host.

Definition invalid_format (repo : string) : string :=
  "Invalid repository format: " +:+ repo +:+ ". Expected format: owner/repo".

Definition git_missing : string :=
  "Git is not installed or not in PATH. Please install Git to use this feature.".

Definition errorIndicators : list string :=
  ["fatal:"; "error:"; "Permission denied"; "not found"].

(** Lines 18-23: validate the repository format. *)
Definition parseRepo (repo : string) : M (string * string) :=
  let repoParts := Js.split "/" repo in
  if negb (Nat.eqb (length repoParts) 2)
     || negb (Js.truthy_opt (repoParts !! 0%nat))
     || negb (Js.truthy_opt (repoParts !! 1%nat))
  then throw (invalid_format repo)
  else ret (default EmptyString (repoParts !! 0%nat),
            default EmptyString (repoParts !! 1%nat)).

(** Lines 28-33: the environment heuristics; only the truthiness of the
    chain of [||] is used afterwards. *)
Definition envServerless : bool :=
  bool_decide (env h !! "VERCEL" = Some "1")
  || Js.truthy_opt (env h !! "VERCEL")
  || Js.truthy_opt (env h !! "AWS_LAMBDA_FUNCTION_NAME")
  || Js.truthy_opt (env h !! "VERCEL_ENV")
  || (negb (Js.truthy_opt (env h !! "TEMP"))
      && negb (Js.truthy_opt (env h !! "TMP"))
      && negb (bool_decide (platform h = "win32"))).

Definition probeOptions : ExecOptions :=
  {| maxBuffer := Some (1024 * 1024)%Z; timeout := Some 2000%Z |}.

(** Lines 28-46: the value of [isServerless] at line 48. *)
Definition detectServerless : M bool :=
  let isServerless := envServerless in
  if negb isServerless then
    try_catch
      (let* _ := execAsync h "git --version" probeOptions in
       ret false)
      (fun _ =>
         let* _ := console ConsoleLog ["[cloneRepo] Git not available, using serverless mode"] in
         ret true)
  else ret isServerless.

(** [if (!existsSync(d)) mkdirSync(d, { recursive: true })]. *)
Definition ensureDir (d : string) : M unit :=
  let* present := existsSync d in
  if negb present then mkdirSync h d else ret tt.

Definition repoDirName (owner repoName : string) : string :=
  owner +:+ "-" +:+ repoName.

(** Line 73-75. *)
Definition gitTempBase : string :=
  if bool_decide (platform h = "win32")
  then Js.or_else (env h !! "TEMP") (Js.or_else (env h !! "TMP") ("C:" +:+ Js.backslash +:+ "temp"))
  else "/tmp".

(** Lines 51-60 (serverless) and lines 72-84 (git): the cache directory of
    a repository. *)
Definition resolveCacheDir (owner repoName : string) (isServerless : bool) : M string :=
  if isServerless then
    let tempBase := "/tmp" in
    let bugsmithDir := join h tempBase "bugsmith" in
    let* _ := ensureDir bugsmithDir in
    let targetDir := join h bugsmithDir (repoDirName owner repoName) in
    let* _ := ensureDir targetDir in
    ret targetDir
  else
    let tempBase := gitTempBase in
    let bugsmithDir := join h tempBase "bugsmith" in
    let* _ := ensureDir bugsmithDir in
    let targetDir := join h bugsmithDir (repoDirName owner repoName) in
    ret targetDir.

Definition markerBody (repo : string) : string :=
  Json.stringify
    [("repo", Json.Str repo); ("cloned", Json.Bool false); ("serverless", Json.Bool true)].

(** Lines 48-70. *)
Definition serverlessClone (repo owner repoName : string) : M string :=
  let* targetDir := resolveCacheDir owner repoName true in
  let* _ := writeFileSync h (join h targetDir ".bugsmith-serverless") (markerBody repo) in
  let* _ := console ConsoleLog
    ["Serverless mode: Created directory structure for " +:+ repo +:+ " at " +:+ targetDir] in
  ret targetDir.

Definition pullCommand (targetDir : string) : string :=
  "git -C " +:+ Js.quote +:+ targetDir +:+ Js.quote +:+ " pull".

Definition pullOptions : ExecOptions :=
  {| maxBuffer := Some (10 * 1024 * 1024)%Z; timeout := None |}.

Definition repoUrl (owner repoName : string) : string :=
  "https://github.com/" +:+ owner +:+ "/" +:+ repoName +:+ ".git".

Definition cloneCommand (owner repoName targetDir : string) : string :=
  "git clone " +:+ repoUrl owner repoName +:+ " " +:+ Js.quote +:+ targetDir +:+ Js.quote.

Definition gitCheckOptions : ExecOptions :=
  {| maxBuffer := Some (1024 * 1024)%Z; timeout := None |}.

Definition cloneOptions : ExecOptions :=
  {| maxBuffer := Some (10 * 1024 * 1024)%Z; timeout := None |}.

(** Lines 121-126: does the diagnostic stream of a clone that exited
    normally report a failure? *)
Definition stderrIsError (stderr : string) : bool :=
  Js.truthy stderr
  && negb (Js.includes stderr "Cloning into")
  && negb (Js.includes stderr "remote:")
  && existsb
       (fun indicator => Js.includes (Js.toLowerCase stderr) (Js.toLowerCase indicator))
       errorIndicators.

(** Lines 128-134. *)
Definition rethrowClone (message : string) : M unit :=
  if Js.includes message "git"
     && (Js.includes message "not found" || Js.includes message "not in PATH")
  then throw git_missing
  else throw message.

(** Lines 103-134. *)
Definition cloneAttempt (owner repoName targetDir : string) : M unit :=
  try_catch
    (let* _ :=
       try_catch
         (let* _ := execAsync h "git --version" gitCheckOptions in ret tt)
         (fun _ => throw git_missing) in
     let* '(_, stderr) := execAsync h (cloneCommand owner repoName targetDir) cloneOptions in
     if stderrIsError stderr
     then throw ("Git clone error: " +:+ stderr)
     else ret tt)
    rethrowClone.

(** Lines 86-101: update an existing checkout; [true] stands for the early
    [return targetDir] of line 94. *)
Definition tryUpdate (repo targetDir : string) : M bool :=
  let* hasGit := existsSync (join h targetDir ".git") in
  if hasGit then
    try_catch
      (let* _ := execAsync h (pullCommand targetDir) pullOptions in
       let* _ := console ConsoleLog ["Updated existing repository " +:+ repo] in
       ret true)
      (fun message =>
         let* _ := console ConsoleWarn
           ["Failed to update repository, will re-clone: " +:+ message] in
         ret false)
  else ret false.

(** Lines 103-137. *)
Definition cloneAndReturn (repo owner repoName targetDir : string) : M string :=
  let* _ := cloneAttempt owner repoName targetDir in
  let* _ := console ConsoleLog
    ["Successfully cloned repository " +:+ repo +:+ " to " +:+ targetDir] in
  ret targetDir.

(** Lines 72-137. *)
Definition gitClone (repo owner repoName : string) : M string :=
  let* targetDir := resolveCacheDir owner repoName false in
  let* updated := tryUpdate repo targetDir in
  if updated then ret targetDir
  else cloneAndReturn repo owner repoName targetDir.

(** Lines 16-137: the body of the outer [try]. *)
Definition cloneRepoBody (repo : string) : M string :=
  let* '(owner, repoName) := parseRepo repo in
  let* isServerless := detectServerless in
  if isServerless then serverlessClone repo owner repoName
  else gitClone repo owner repoName.

Definition messageOrUnknown (message : string) : string :=
  if Js.truthy message then message else "Unknown error".

Definition wrapError (repo message : string) : string :=
  "Failed to clone repository " +:+ repo +:+ ": " +:+ messageOrUnknown message.

(** Lines 15-144. *)
Definition cloneRepo (repo : string) : M string :=
  try_catch (cloneRepoBody repo)
    (fun message =>
       let* _ := console ConsoleError ["Error cloning repository " +:+ repo +:+ ":"; message] in
       throw (wrapError repo message)).

End CloneRepo.

(** ** Predicates of the statements *)

(** [needle] occurs in [s]. *)
Definition contains (s needle : string) : Prop :=
  exists pre post, s = pre +:+ needle +:+ post.

(** Some stretch of [s] equals [needle] up to the case of its letters. *)
Definition contains_ci (s needle : string) : Prop :=
  exists pre mid post,
    s = pre +:+ mid +:+ post /\ Js.toLowerCase mid = Js.toLowerCase needle.

Definition no_slash (s : string) : Prop := Js.has_char "/" s = false.

(** A run starts on a file system with nothing traced yet. *)
Definition boot (fs : gmap string node) : State := {| files := fs; trace := [] |}.

Definition is_exec (e : Event) : bool :=
  match e with
  | EvExec _ _ => true
  | _ => false
  end.

Definition is_fs (e : Event) : bool :=
  match e with
  | EvExists _ | EvMkdir _ | EvWrite _ _ => true
  | _ => false
  end.

Definition is_fs_mutation (e : Event) : bool :=
  match e with
  | EvMkdir _ | EvWrite _ _ => true
  | _ => false
  end.

(** The outer [catch] of the source (lines 138-143) applied to what the body
    of the [try] produced. *)
Definition outerCatch (repo : string) (r : (string + string) * State) : (string + string) * State :=
  match r with
  | (inr dir, st) => (inr dir, st)
  | (inl message, st) =>
      (inl (wrapError repo message),
       record (EvConsole ConsoleError ["Error cloning repository " +:+ repo +:+ ":"; message]) st)
  end.

(** Every event a computation appends to the trace satisfies [P]. *)
Definition emits {A} (P : Event -> Prop) (m : M A) : Prop :=
  forall st, exists evs, trace (snd (m st)) = trace st ++ evs /\ Forall P evs.

(** Every error a computation throws has a message satisfying [P]. *)
Definition throws {A} (P : string -> Prop) (m : M A) : Prop :=
  forall st message st', m st = (inl message, st') -> P message.

(** An environment variable holds a non-empty string. *)
Definition var_truthy (h : Host) (k : string) : Prop :=
  exists v, env h !! k = Some v /\ v <> EmptyString.

Definition var_set (h : Host) (k : string) : Prop := is_Some (env h !! k).

Definition var_unset (h : Host) (k : string) : Prop := env h !! k = None.

(** The four heuristics of the classifier as line 28-33 test them: a
    variable counts when it holds a non-empty value. *)
Definition heuristics (h : Host) : Prop :=
  var_truthy h "VERCEL" \/
  var_truthy h "AWS_LAMBDA_FUNCTION_NAME" \/
  var_truthy h "VERCEL_ENV" \/
  (~ var_truthy h "TEMP" /\ ~ var_truthy h "TMP" /\ platform h <> "win32").

(** The text for which line 130 replaces the error of a clone by the
    git-missing error. *)
Definition blames_git (message : string) : Prop :=
  contains message "git" /\
  (contains message "not found" \/ contains message "not in PATH").

(** The options of a spawned process bound its output buffer. *)
Definition bounded_buffer (e : Event) : Prop :=
  match e with
  | EvExec _ opts => exists b, maxBuffer opts = Some b /\ (0 < b <= 10 * 1024 * 1024)%Z
  | _ => True
  end.

(** The options of a spawned process set a timeout. *)
Definition has_timeout (e : Event) : Prop :=
  match e with
  | EvExec _ opts => exists t, timeout opts = Some t /\ (0 < t)%Z
  | _ => True
  end.

(** The cache directory of a repository, as lines 51-57 and 73-84 compute
    it. *)
Definition cacheDir (h : Host) (owner name : string) (isServerless : bool) : string :=
  join h (join h (if isServerless then "/tmp" else gitTempBase h) "bugsmith")
    (repoDirName owner name).

(** [path.dirname] undoes [path.join] on the paths of the serverless cache:
    the marker lies in the directory of the repository, which lies in the
    namespace directory. *)
Definition serverless_layout (h : Host) (owner name : string) : Prop :=
  let bugs := join h "/tmp" "bugsmith" in
  let dir := cacheDir h owner name true in
  let marker := join h dir ".bugsmith-serverless" in
  ancestors h marker = dir :: ancestors h dir /\
  ancestors h dir = bugs :: ancestors h bugs.

(** The message of an error raised by a file-system mutation. *)
Definition fs_error (h : Host) (message : string) : Prop :=
  (exists n ev, is_fs_mutation ev = true /\ fs_fault h n ev = Some message) \/
  (exists p, message = invalid_path h p) \/
  (exists p, message = "ENOTDIR: not a directory, mkdir '" +:+ p +:+ "'") \/
  (exists p, message = "EEXIST: file already exists, mkdir '" +:+ p +:+ "'") \/
  (exists p, message = "ENOTDIR: not a directory, open '" +:+ p +:+ "'") \/
  (exists p, message = "ENOENT: no such file or directory, open '" +:+ p +:+ "'") \/
  (exists p, message = "EISDIR: illegal operation on a directory, open '" +:+ p +:+ "'").

(** A spawned [git clone]. *)
Definition is_clone (e : Event) : bool :=
  match e with
  | EvExec cmd _ => Js.startsWith cmd "git clone "
  | _ => false
  end.

(** The causes the body of the outer [try] can fail with. *)
Definition failure_cause (h : Host) (repo cause : string) : Prop :=
  cause = invalid_format repo \/
  fs_error h cause \/
  cause = git_missing \/
  (exists stderr, cause = "Git clone error: " +:+ stderr) \/
  (exists n owner name dir fs fs',
     spawn h n (cloneCommand owner name dir) cloneOptions fs = (Rejected cause, fs')).

(** The errors of the host carry a message, as those of Node do. *)
Definition host_messages_nonempty (h : Host) : Prop :=
  (forall n cmd opts fs message fs',
     spawn h n cmd opts fs = (Rejected message, fs') -> message <> EmptyString) /\
  (forall n ev message, fs_fault h n ev = Some message -> message <> EmptyString).

(** [path.join] on a POSIX host, for a normalised first argument without a
    trailing separator and a second argument that is one plain segment
    (which is how the source calls it there). *)
Definition posix_join (a b : string) : string := a +:+ "/" +:+ b.

(** [segments.join(sep)]. *)
Fixpoint join_segments (sep : string) (segments : list string) : string :=
  match segments with
  | [] => EmptyString
  | [seg] => seg
  | seg :: rest => seg +:+ sep +:+ join_segments sep rest
  end.

(** [path.dirname] on a POSIX host, for a normalised path: the path up to
    its last slash, [/] for a path right below the root and for the root,
    [.] for a path without a slash. *)
Definition posix_dirname (p : string) : string :=
  match Js.split "/" p with
  | [] | [_] => "."
  | segments =>
      let parent := join_segments "/" (removelast segments) in
      if Js.truthy parent then parent else "/"
  end.

(** [path.dirname] on a Windows host, for a normalised path below a drive
    root, written with backslashes. *)
Definition windows_dirname (p : string) : string :=
  match Js.split "092" p with
  | [] | [_] => "."
  | [drive; _] => drive +:+ Js.backslash
  | segments => join_segments Js.backslash (removelast segments)
  end.

Definition hex_upper (n : nat) : ascii :=
  if Nat.ltb n 10 then ascii_of_nat (48 + n) else ascii_of_nat (55 + n).

(** How [util.inspect] writes one character of a string between single
    quotes. *)
Definition inspect_char (c : ascii) : string :=
  let n := nat_of_ascii c in
  if Nat.eqb n 8 then Js.backslash +:+ "b"
  else if Nat.eqb n 9 then Js.backslash +:+ "t"
  else if Nat.eqb n 10 then Js.backslash +:+ "n"
  else if Nat.eqb n 12 then Js.backslash +:+ "f"
  else if Nat.eqb n 13 then Js.backslash +:+ "r"
  else if Nat.eqb n 39 then Js.backslash +:+ "'"
  else if Nat.eqb n 92 then Js.backslash +:+ Js.backslash
  else if Nat.ltb n 32 || Nat.eqb n 127 then
    Js.backslash +:+ "x" +:+
    String (hex_upper (Nat.div n 16)) (String (hex_upper (Nat.modulo n 16)) EmptyString)
  else String c EmptyString.

Fixpoint inspect_chars (s : string) : string :=
  match s with
  | EmptyString => EmptyString
  | String c s' => inspect_char c +:+ inspect_chars s'
  end.

(** [util.inspect] on a string without a single quote (with one, Node picks
    another kind of quote). *)
Definition node_inspect (s : string) : string :=
  "'" +:+ inspect_chars s +:+ "'".

(** ** Concrete hosts *)

Definition no_fault : nat -> Event -> option string := fun _ _ => None.

Definition git_version_ok : ExecOutcome := Resolved "git version 2.43.0" EmptyString.

(** A POSIX machine with git: every command exits normally, a clone creates
    the checkout and reports its progress on the diagnostic stream. *)
Definition git_spawn (n : nat) (cmd : string) (opts : ExecOptions) (fs : gmap string node)
  : ExecOutcome * gmap string node :=
  if Js.startsWith cmd "git clone"
  then (Resolved EmptyString "Cloning into '/tmp/bugsmith/octocat-Hello-World'...",
        <["/tmp/bugsmith/octocat-Hello-World/.git" := Dir]>
          (<["/tmp/bugsmith/octocat-Hello-World" := Dir]> fs))
  else (git_version_ok, fs).

Definition git_host : Host :=
  {| env := <["TMP" := "/tmp"]> empty;
     platform := "linux";
     join := posix_join;
     dirname := posix_dirname;
     inspect := node_inspect;
     spawn := git_spawn;
     fs_fault := no_fault |}.

(** A serverless platform: the marker variable is set. *)
Definition vercel_host : Host :=
  {| env := <["VERCEL" := "1"]> empty;
     platform := "linux";
     join := posix_join;
     dirname := posix_dirname;
     inspect := node_inspect;
     spawn := fun _ _ _ fs => (Rejected "spawn /bin/sh ENOENT", fs);
     fs_fault := no_fault |}.

(** The same platform with a file system that cannot be written. *)
Definition readonly_host : Host :=
  {| env := <["VERCEL" := "1"]> empty;
     platform := "linux";
     join := posix_join;
     dirname := posix_dirname;
     inspect := node_inspect;
     spawn := fun _ _ _ fs => (Rejected "spawn /bin/sh ENOENT", fs);
     fs_fault := fun _ _ => Some "EROFS: read-only file system" |}.

(** A machine whose temp-directory variable is set and which has no git. *)
Definition nogit_host : Host :=
  {| env := <["TMP" := "/tmp"]> empty;
     platform := "linux";
     join := posix_join;
     dirname := posix_dirname;
     inspect := node_inspect;
     spawn := fun _ _ _ fs => (Rejected "/bin/sh: 1: git: not found", fs);
     fs_fault := no_fault |}.

(** A machine with git whose temp-directory variable is set to the empty
    string. *)
Definition empty_temp_host : Host :=
  {| env := <["TEMP" := EmptyString]> empty;
     platform := "linux";
     join := posix_join;
     dirname := posix_dirname;
     inspect := node_inspect;
     spawn := git_spawn;
     fs_fault := no_fault |}.

(** A machine with git where the function-name variable is set to the empty
    string. *)
Definition empty_name_host : Host :=
  {| env := <["AWS_LAMBDA_FUNCTION_NAME" := EmptyString]> (<["TMP" := "/tmp"]> empty);
     platform := "linux";
     join := posix_join;
     dirname := posix_dirname;
     inspect := node_inspect;
     spawn := git_spawn;
     fs_fault := no_fault |}.

(** A clone that exits normally although its diagnostic stream carries a
    [fatal:] line after the progress line. *)
Definition fatal_progress_host : Host :=
  {| env := <["TMP" := "/tmp"]> empty;
     platform := "linux";
     join := posix_join;
     dirname := posix_dirname;
     inspect := node_inspect;
     spawn := fun _ cmd _ fs =>
       if Js.startsWith cmd "git clone"
       then (Resolved EmptyString "Cloning into 'x'... fatal: unable to checkout working tree", fs)
       else (git_version_ok, fs);
     fs_fault := no_fault |}.

(** A clone that exits normally with a bare [fatal:] line. *)
Definition fatal_host : Host :=
  {| env := <["TMP" := "/tmp"]> empty;
     platform := "linux";
     join := posix_join;
     dirname := posix_dirname;
     inspect := node_inspect;
     spawn := fun _ cmd _ fs =>
       if Js.startsWith cmd "git clone"
       then (Resolved EmptyString "fatal: unable to access the remote", fs)
       else (git_version_ok, fs);
     fs_fault := no_fault |}.

(** git answers the classifier and disappears before the clone. *)
Definition vanishing_git_host : Host :=
  {| env := <["TMP" := "/tmp"]> empty;
     platform := "linux";
     join := posix_join;
     dirname := posix_dirname;
     inspect := node_inspect;
     spawn := fun n _ _ fs =>
       match n with
       | O => (git_version_ok, fs)
       | _ => (Rejected "Command failed: git --version", fs)
       end;
     fs_fault := no_fault |}.

(** A stale checkout: the pull fails, and so does the clone into the
    directory that is still there. *)
Definition stale_files : gmap string node :=
  <["/tmp/bugsmith/octocat-Hello-World/.git" := Dir]>
    (<["/tmp/bugsmith/octocat-Hello-World" := Dir]>
       (<["/tmp/bugsmith" := Dir]> (<["/tmp" := Dir]> (<["/" := Dir]> empty)))).

Definition stale_host : Host :=
  {| env := <["TMP" := "/tmp"]> empty;
     platform := "linux";
     join := posix_join;
     dirname := posix_dirname;
     inspect := node_inspect;
     spawn := fun _ cmd _ fs =>
       if Js.startsWith cmd "git -C"
       then (Rejected "Command failed: git pull: could not resolve host", fs)
       else if Js.startsWith cmd "git clone"
       then (Rejected "Command failed: git clone: destination path already exists", fs)
       else (git_version_ok, fs);
     fs_fault := no_fault |}.

(** A Windows machine: [path.join] separates with a backslash (for a
    normalised first argument written with backslashes and a plain second
    segment). *)
Definition windows_host : Host :=
  {| env := <["TMP" := "D:\scratch"]> empty;
     platform := "win32";
     join := fun a b => a +:+ Js.backslash +:+ b;
     dirname := windows_dirname;
     inspect := node_inspect;
     spawn := git_spawn;
     fs_fault := no_fault |}.

(** The states a run from a file system [fs] passes through in git mode. *)
Definition after_detect (h : Host) (fs : gmap string node) : State :=
  snd (detectServerless h (boot fs)).

Definition after_resolve (h : Host) (owner name : string) (fs : gmap string node) : State :=
  snd (resolveCacheDir h owner name false (after_detect h fs)).

Definition after_update (h : Host) (repo owner name : string) (fs : gmap string node)
  : State :=
  snd (tryUpdate h repo (cacheDir h owner name false) (after_resolve h owner name fs)).

(** ** Predicates of the further properties *)

(** A spawned [git pull]. *)
Definition is_pull (e : Event) : bool :=
  match e with
  | EvExec cmd _ => Js.startsWith cmd "git -C "
  | _ => false
  end.

Definition is_console_error (e : Event) : bool :=
  match e with
  | EvConsole ConsoleError _ => true
  | _ => false
  end.

(** What the git branch itself asks of the file system: it writes no file
    and calls [mkdirSync] for the namespace directory only. *)
Definition git_footprint (h : Host) (e : Event) : Prop :=
  match e with
  | EvWrite _ _ => False
  | EvMkdir p => p = join h (gitTempBase h) "bugsmith"
  | _ => True
  end.

(** A relation between the state before and the state after holds for every
    run of a computation. *)
Definition steps {A} (R : State -> State -> Prop) (m : M A) : Prop :=
  forall st, R st (snd (m st)).

(** No path disappears. *)
Definition keeps_paths (st st' : State) : Prop :=
  forall p, is_Some (files st !! p) -> is_Some (files st' !! p).

(** The path [p] is as it was, or it was absent, is now a directory and
    belongs to [S]. *)
Definition created_among (S : list string) (st st' : State) (p : string) : Prop :=
  files st' !! p = files st !! p \/
  (files st !! p = None /\ files st' !! p = Some Dir /\ In p S).

(** Among the paths that satisfy [P], nothing changes but directories
    of [S] that are created. *)
Definition creates_dirs_only (P : string -> Prop) (S : list string) (st st' : State)
  : Prop :=
  forall p, P p -> created_among S st st' p.

Definition count_events (f : Event -> bool) (evs : list Event) : nat :=
  length (List.filter f evs).

(** A computation appends at most [k] events of the kind [f]. *)
Definition at_most {A} (f : Event -> bool) (k : nat) (m : M A) : Prop :=
  forall st, exists evs,
    trace (snd (m st)) = trace st ++ evs /\ count_events f evs <= k.

(** The processes of the host remove no path. *)
Definition processes_keep_paths (h : Host) : Prop :=
  forall n cmd opts fs p,
    is_Some (fs !! p) -> is_Some (snd (spawn h n cmd opts fs) !! p).

Definition no_hyphen (s : string) : Prop := Js.has_char "-" s = false.

(** The processes of the host leave the path [p] as it is. *)
Definition processes_leave (h : Host) (p : string) : Prop :=
  forall n cmd opts fs, snd (spawn h n cmd opts fs) !! p = fs !! p.

(** The value of a lower-case hexadecimal digit. *)
Definition hex_value (c : ascii) : option nat :=
  let n := nat_of_ascii c in
  if Nat.leb 48 n && Nat.leb n 57 then Some (n - 48)
  else if Nat.leb 97 n && Nat.leb n 102 then Some (n - 87)
  else None.

(** Reads back the first code unit of an escaped text: the inverse of
    [Json.escape_char], by which escaping is shown to lose nothing.  An
    unescaped quote ends the text. *)
Definition unescape_head (s : string) : option (ascii * string) :=
  match s with
  | EmptyString => None
  | String c rest =>
      let n := nat_of_ascii c in
      if Nat.eqb n 34 then None
      else if Nat.eqb n 92 then
        match rest with
        | EmptyString => None
        | String x rest' =>
            let m := nat_of_ascii x in
            if Nat.eqb m 34 || Nat.eqb m 92 then Some (x, rest')
            else if Nat.eqb m 98 then Some (ascii_of_nat 8, rest')
            else if Nat.eqb m 102 then Some (ascii_of_nat 12, rest')
            else if Nat.eqb m 110 then Some (ascii_of_nat 10, rest')
            else if Nat.eqb m 114 then Some (ascii_of_nat 13, rest')
            else if Nat.eqb m 116 then Some (ascii_of_nat 9, rest')
            else if Nat.eqb m 117 then
              match rest' with
              | String z1 (String z2 (String h1 (String h2 r))) =>
                  if Nat.eqb (nat_of_ascii z1) 48 && Nat.eqb (nat_of_ascii z2) 48 then
                    match hex_value h1, hex_value h2 with
                    | Some a, Some b => Some (ascii_of_nat (16 * a + b), r)
                    | _, _ => None
                    end
                  else None
              | _ => None
              end
            else None
        end
      else Some (c, rest)
  end.

(** An ordinary Linux machine with git: neither [TEMP] nor [TMP] is set. *)
Definition plain_linux_host : Host :=
  {| env := <["HOME" := "/root"]> empty;
     platform := "linux";
     join := posix_join;
     dirname := posix_dirname;
     inspect := node_inspect;
     spawn := git_spawn;
     fs_fault := no_fault |}.

(** A machine with git asked for a repository that does not exist. *)
Definition missing_repo_host : Host :=
  {| env := <["TMP" := "/tmp"]> empty;
     platform := "linux";
     join := posix_join;
     dirname := posix_dirname;
     inspect := node_inspect;
     spawn := fun _ cmd _ fs =>
       if Js.startsWith cmd "git clone"
       then (Rejected "Command failed: git clone: remote: Repository not found.", fs)
       else (git_version_ok, fs);
     fs_fault := no_fault |}.

(** * Facts about strings *)

Section StringFacts.

Lemma string_app_nil_l (s : string) : EmptyString +:+ s = s.
Proof. reflexivity. Qed.

Lemma string_app_cons (c : ascii) (s t : string) : String c s +:+ t = String c (s +:+ t).
Proof. reflexivity. Qed.

Lemma string_app_assoc (s t u : string) : (s +:+ t) +:+ u = s +:+ t +:+ u.
Proof.
  induction s as [|c s IH]; [reflexivity|].
  rewrite !string_app_cons, IH. reflexivity.
Qed.

Lemma ascii_eqb_true (a b : ascii) : Ascii.eqb a b = true <-> a = b.
Proof. apply Ascii.eqb_eq. Qed.

Lemma startsWith_spec (needle s : string) :
  Js.startsWith s needle = true <-> exists post, s = needle +:+ post.
Proof.
  revert s. induction needle as [|a needle IH]; intros s.
  - destruct s; simpl; split; eauto.
  - destruct s as [|b s]; simpl.
    + split; [discriminate|]. intros [post H]. rewrite string_app_cons in H. discriminate.
    + rewrite andb_true_iff, ascii_eqb_true, IH. split.
      * intros [-> [post ->]]. exists post. reflexivity.
      * intros [post H]. rewrite string_app_cons in H. injection H as -> ->. eauto.
Qed.

Lemma includes_spec (s needle : string) :
  Js.includes s needle = true <-> contains s needle.
Proof.
  unfold contains. induction s as [|c s IH].
  - cbn [Js.includes]. rewrite orb_false_r, startsWith_spec. split.
    + intros [post H]. exists EmptyString, post. exact H.
    + intros [pre [post H]]. destruct pre as [|a pre].
      * eauto.
      * rewrite string_app_cons in H. discriminate.
  - cbn [Js.includes]. rewrite orb_true_iff, startsWith_spec, IH. split.
    + intros [[post H] | [pre [post H]]].
      * exists EmptyString, post. exact H.
      * exists (String c pre), post. rewrite string_app_cons, H. reflexivity.
    + intros [pre [post H]]. destruct pre as [|a pre].
      * left. eauto.
      * right. rewrite string_app_cons in H. injection H as _ H. eauto.
Qed.

Lemma includes_false (s needle : string) :
  Js.includes s needle = false <-> ~ contains s needle.
Proof.
  rewrite <- includes_spec. destruct (Js.includes s needle); split; intros H;
    try reflexivity; try discriminate; try (intros ?; discriminate).
  exfalso. apply H. reflexivity.
Qed.

Lemma toLowerCase_app (s t : string) :
  Js.toLowerCase (s +:+ t) = Js.toLowerCase s +:+ Js.toLowerCase t.
Proof.
  induction s as [|c s IH]; [reflexivity|].
  rewrite string_app_cons. simpl. rewrite IH, string_app_cons. reflexivity.
Qed.

Lemma toLowerCase_split (s a b : string) :
  Js.toLowerCase s = a +:+ b ->
  exists s1 s2, s = s1 +:+ s2 /\ Js.toLowerCase s1 = a /\ Js.toLowerCase s2 = b.
Proof.
  revert s. induction a as [|c a IH]; intros s H.
  - exists EmptyString, s. auto.
  - destruct s as [|d s]; [discriminate|].
    simpl in H. rewrite string_app_cons in H. injection H as Hc H.
    destruct (IH _ H) as (s1 & s2 & -> & <- & <-).
    exists (String d s1), s2. simpl. rewrite Hc. auto.
Qed.

Lemma includes_lower_spec (s needle : string) :
  Js.includes (Js.toLowerCase s) (Js.toLowerCase needle) = true <-> contains_ci s needle.
Proof.
  rewrite includes_spec. unfold contains, contains_ci. split.
  - intros (pre & post & H).
    apply toLowerCase_split in H as (s1 & s2 & -> & _ & H).
    apply toLowerCase_split in H as (s3 & s4 & -> & H & _).
    exists s1, s3, s4. auto.
  - intros (pre & mid & post & -> & H).
    exists (Js.toLowerCase pre), (Js.toLowerCase post).
    rewrite !toLowerCase_app, H. reflexivity.
Qed.

Lemma truthy_true (s : string) : Js.truthy s = true <-> s <> EmptyString.
Proof. destruct s; simpl; split; congruence. Qed.

Lemma split_not_nil (c : ascii) (s : string) : Js.split c s <> [].
Proof.
  destruct s as [|d s]; simpl; [discriminate|].
  destruct (Ascii.eqb d c); [discriminate|].
  destruct (Js.split c s); discriminate.
Qed.

(** Splitting cuts at the first separator. *)
Lemma split_cons_inv (c : ascii) (s seg : string) (rest : list string) :
  Js.split c s = seg :: rest ->
  Js.has_char c seg = false /\
  ((rest = [] /\ s = seg) \/
   (exists s', s = seg +:+ String c s' /\ Js.split c s' = rest)).
Proof.
  revert seg rest. induction s as [|d s IH]; intros seg rest H; simpl in H.
  - injection H as <- <-. auto.
  - destruct (Ascii.eqb d c) eqn:E.
    + apply ascii_eqb_true in E as ->. injection H as <- <-.
      split; [reflexivity|]. right. exists s. auto.
    + destruct (Js.split c s) as [|seg' rest'] eqn:Hs; [destruct (split_not_nil _ _ Hs)|].
      injection H as <- <-.
      destruct (IH _ _ eq_refl) as [Hc Hr].
      split.
      * simpl. rewrite Hc, orb_false_r.
        rewrite Ascii.eqb_sym. exact E.
      * destruct Hr as [[-> ->] | (s' & -> & Hs')]; [left; auto|].
        right. exists s'. rewrite string_app_cons. auto.
Qed.

Lemma split_no_sep (c : ascii) (s : string) :
  Js.has_char c s = false -> Js.split c s = [s].
Proof.
  induction s as [|d s IH]; simpl; [reflexivity|].
  intros H. apply orb_false_iff in H as [H1 H2].
  rewrite Ascii.eqb_sym, H1, (IH H2). reflexivity.
Qed.

Lemma split_at_sep (c : ascii) (a b : string) :
  Js.has_char c a = false ->
  Js.split c (a +:+ String c b) = a :: Js.split c b.
Proof.
  induction a as [|d a IH]; intros H.
  - rewrite string_app_nil_l. simpl. rewrite Ascii.eqb_refl. reflexivity.
  - simpl in H. apply orb_false_iff in H as [H1 H2].
    rewrite string_app_cons. simpl. rewrite Ascii.eqb_sym, H1, (IH H2). reflexivity.
Qed.

(** Exactly two segments: exactly one separator. *)
Lemma split_two_iff (s a b : string) :
  Js.split "/" s = [a; b] <-> s = a +:+ "/" +:+ b /\ no_slash a /\ no_slash b.
Proof.
  unfold no_slash. split.
  - intros H. apply split_cons_inv in H as [Ha [[H _] | (s' & -> & H)]]; [discriminate|].
    apply split_cons_inv in H as [Hb [[_ ->] | (s'' & _ & H)]].
    + auto.
    + destruct (split_not_nil _ _ H).
  - intros (-> & Ha & Hb).
    change ("/" +:+ b) with (String "/" b).
    rewrite (split_at_sep _ _ _ Ha), (split_no_sep _ _ Hb). reflexivity.
Qed.

End StringFacts.

(** * Running the monad *)

Lemma cloneRepo_outerCatch (h : Host) (repo : string) (st : State) :
  cloneRepo h repo st = outerCatch repo (cloneRepoBody h repo st).
Proof.
  unfold cloneRepo, try_catch, outerCatch.
  destruct (cloneRepoBody h repo st) as [[e|d] st']; reflexivity.
Qed.

(** [parseRepo] has no effect; it succeeds exactly on two truthy segments. *)
Lemma parseRepo_cases (repo : string) (st : State) :
  (exists owner name,
      parseRepo repo st = (inr (owner, name), st) /\
      Js.split "/" repo = [owner; name] /\
      owner <> EmptyString /\ name <> EmptyString) \/
  (parseRepo repo st = (inl (invalid_format repo), st) /\
   ~ exists owner name,
       Js.split "/" repo = [owner; name] /\
       owner <> EmptyString /\ name <> EmptyString).
Proof.
  unfold parseRepo.
  destruct (Js.split "/" repo) as [|a [|b [|c l]]] eqn:Hs; simpl.
  - right. split; [reflexivity|]. intros (o & n & H & _). discriminate.
  - right. split; [reflexivity|]. intros (o & n & H & _). discriminate.
  - destruct (Js.truthy a) eqn:Ha; simpl.
    + destruct (Js.truthy b) eqn:Hb; simpl.
      * left. exists a, b. repeat split; try reflexivity; apply truthy_true; assumption.
      * right. split; [reflexivity|]. intros (o & n & H & _ & Hn).
        injection H as <- <-. apply truthy_true in Hn. congruence.
    + right. split; [reflexivity|]. intros (o & n & H & Ho & _).
      injection H as <- <-. apply truthy_true in Ho. congruence.
  - right. split; [reflexivity|]. intros (o & n & H & _). discriminate.
Qed.

(** ** Traces and thrown errors, compositionally *)

Section TraceLogic.

Context {A B : Type}.

Lemma emits_ret (P : Event -> Prop) (a : A) : emits P (ret a).
Proof. intros st. exists []. simpl. rewrite app_nil_r. auto. Qed.

Lemma emits_throw (P : Event -> Prop) (e : string) : emits P (@throw A e).
Proof. intros st. exists []. simpl. rewrite app_nil_r. auto. Qed.

Lemma emits_bind (P : Event -> Prop) (m : M A) (k : A -> M B) :
  emits P m -> (forall a, emits P (k a)) -> emits P (bind m k).
Proof.
  intros Hm Hk st. unfold bind.
  destruct (Hm st) as (e1 & H1 & F1).
  destruct (m st) as [[e|a] st1]; simpl in *.
  - exists e1. auto.
  - destruct (Hk a st1) as (e2 & H2 & F2).
    exists (e1 ++ e2). rewrite H2, H1, app_assoc. split; [reflexivity|].
    apply Forall_app. auto.
Qed.

Lemma emits_try_catch (P : Event -> Prop) (m : M A) (handler : string -> M A) :
  emits P m -> (forall e, emits P (handler e)) -> emits P (try_catch m handler).
Proof.
  intros Hm Hk st. unfold try_catch.
  destruct (Hm st) as (e1 & H1 & F1).
  destruct (m st) as [[e|a] st1]; simpl in *.
  - destruct (Hk e st1) as (e2 & H2 & F2).
    exists (e1 ++ e2). rewrite H2, H1, app_assoc. split; [reflexivity|].
    apply Forall_app. auto.
  - exists e1. auto.
Qed.

Lemma throws_ret (P : string -> Prop) (a : A) : throws P (ret a).
Proof. intros st e st' H. discriminate. Qed.

Lemma throws_throw (P : string -> Prop) (e : string) : P e -> throws P (@throw A e).
Proof. intros HP st e' st' H. injection H as <- _. assumption. Qed.

Lemma throws_bind (P : string -> Prop) (m : M A) (k : A -> M B) :
  throws P m -> (forall a, throws P (k a)) -> throws P (bind m k).
Proof.
  intros Hm Hk st e st' H. unfold bind in H.
  destruct (m st) as [[e1|a] st1] eqn:E.
  - injection H as <- <-. eapply Hm. eassumption.
  - eapply Hk. eassumption.
Qed.

Lemma throws_try_catch (P Q : string -> Prop) (m : M A) (handler : string -> M A) :
  throws Q m -> (forall e, Q e -> throws P (handler e)) -> throws P (try_catch m handler).
Proof.
  intros Hm Hk st e st' H. unfold try_catch in H.
  destruct (m st) as [[e1|a] st1] eqn:E.
  - eapply Hk; [|eassumption]. eapply Hm. eassumption.
  - discriminate.
Qed.

Lemma throws_weaken (P Q : string -> Prop) (m : M A) :
  (forall e, P e -> Q e) -> throws P m -> throws Q m.
Proof. intros HPQ Hm st e st' H. apply HPQ. eapply Hm. eassumption. Qed.

End TraceLogic.

Lemma emits_console (P : Event -> Prop) (level : Console) (args : list string) :
  P (EvConsole level args) -> emits P (console level args).
Proof. intros HP st. exists [EvConsole level args]. simpl. auto. Qed.

Lemma emits_existsSync (P : Event -> Prop) (p : string) :
  P (EvExists p) -> emits P (existsSync p).
Proof. intros HP st. exists [EvExists p]. simpl. auto. Qed.

(** ** The file-system mutations *)

(** Creating directories adds entries and alters none. *)
Lemma make_dirs_lookup (fs : gmap string node) (l : list string) (q : string) :
  foldr make_dir fs l !! q =
  match fs !! q with
  | Some nd => Some nd
  | None => if bool_decide (q ∈ l) then Some Dir else None
  end.
Proof.
  revert q. induction l as [|p l IH]; intros q; cbn [foldr].
  - destruct (fs !! q); [reflexivity|].
    rewrite bool_decide_eq_false_2; [reflexivity|]. intros Hin. inversion Hin.
  - assert (Hcons : forall b : bool,
               bool_decide (q ∈ l) = b -> q <> p -> bool_decide (q ∈ p :: l) = b).
    { intros [] Hb Hne.
      - apply bool_decide_eq_true in Hb. apply bool_decide_eq_true_2. right. exact Hb.
      - apply bool_decide_eq_false in Hb. apply bool_decide_eq_false_2.
        intros Hin. apply elem_of_cons in Hin as [Hin|Hin]; auto. }
    assert (Hhead : bool_decide (p ∈ p :: l) = true)
      by (apply bool_decide_eq_true_2; left).
    unfold make_dir at 1.
    destruct (foldr make_dir fs l !! p) as [ndp|] eqn:Ep; rewrite IH in Ep.
    + rewrite IH. destruct (fs !! q) as [nd|] eqn:Eq; [reflexivity|].
      destruct (decide (q = p)) as [->|Hne].
      * rewrite Hhead. rewrite Eq in Ep.
        destruct (bool_decide (p ∈ l)); [reflexivity|discriminate].
      * rewrite (Hcons _ eq_refl Hne). reflexivity.
    + destruct (decide (q = p)) as [->|Hne].
      * rewrite lookup_insert_eq, Hhead.
        destruct (fs !! p); [discriminate|reflexivity].
      * rewrite lookup_insert_ne by congruence. rewrite IH.
        destruct (fs !! q); [reflexivity|].
        rewrite (Hcons _ eq_refl Hne). reflexivity.
Qed.

Lemma make_dirs_keeps (fs : gmap string node) (l : list string) (q : string) (nd : node) :
  fs !! q = Some nd -> foldr make_dir fs l !! q = Some nd.
Proof. intros H. rewrite make_dirs_lookup, H. reflexivity. Qed.

Lemma make_dirs_other (fs : gmap string node) (l : list string) (q : string) :
  q ∉ l -> foldr make_dir fs l !! q = fs !! q.
Proof.
  intros H. rewrite make_dirs_lookup. destruct (fs !! q); [reflexivity|].
  rewrite bool_decide_eq_false_2; auto.
Qed.

Lemma make_dirs_present (fs : gmap string node) (l : list string) (q : string) :
  q ∈ l -> is_Some (foldr make_dir fs l !! q).
Proof.
  intros H. rewrite make_dirs_lookup. destruct (fs !! q); [eauto|].
  rewrite bool_decide_eq_true_2; eauto.
Qed.

Lemma make_dirs_is_file (fs : gmap string node) (l : list string) (q : string) :
  is_file (foldr make_dir fs l) q = is_file fs q.
Proof.
  unfold is_file. rewrite make_dirs_lookup.
  destruct (fs !! q) as [[|d]|]; try reflexivity.
  destruct (bool_decide (q ∈ l)); reflexivity.
Qed.

Lemma mkdirSync_trace (h : Host) (p : string) (st : State) :
  trace (snd (mkdirSync h p st)) = trace st ++ [EvMkdir p].
Proof.
  unfold mkdirSync. destruct (has_nul p); [reflexivity|].
  destruct (fs_fault h _ _); [reflexivity|].
  destruct (existsb _ _); [reflexivity|].
  destruct (is_file _ _); reflexivity.
Qed.

Lemma writeFileSync_trace (h : Host) (p data : string) (st : State) :
  trace (snd (writeFileSync h p data st)) = trace st ++ [EvWrite p data].
Proof.
  unfold writeFileSync. destruct (has_nul p); [reflexivity|].
  destruct (fs_fault h _ _); [reflexivity|].
  destruct (existsb _ _); [reflexivity|].
  destruct (files st !! dirname h p) as [[|d]|]; try reflexivity.
  destruct (files st !! p) as [[|d]|]; reflexivity.
Qed.

(** A directory creation that returns, and one that throws. *)
Lemma mkdirSync_inr (h : Host) (p : string) (st st' : State) (u : unit) :
  mkdirSync h p st = (inr u, st') ->
  st' = {| files := foldr make_dir (files st) (p :: ancestors h p);
           trace := trace st ++ [EvMkdir p] |} /\
  has_nul p = false /\
  existsb (is_file (files st)) (ancestors h p) = false /\
  is_file (files st) p = false.
Proof.
  unfold mkdirSync. destruct (has_nul p); [discriminate|].
  destruct (fs_fault h _ _); [discriminate|].
  destruct (existsb _ _); [discriminate|].
  destruct (is_file _ _); [discriminate|].
  intros H. injection H as _ <-. auto.
Qed.

Lemma mkdirSync_inl (h : Host) (p message : string) (st st' : State) :
  mkdirSync h p st = (inl message, st') ->
  fs_error h message /\ files st' = files st.
Proof.
  unfold mkdirSync, fs_error. destruct (has_nul p).
  { intros H. injection H as <- <-. split; [|reflexivity]. right. left. eauto. }
  destruct (fs_fault h _ _) as [m|] eqn:F.
  { intros H. injection H as <- <-. split; [|reflexivity].
    left. eexists _, _. split; [|exact F]. reflexivity. }
  destruct (existsb _ _).
  { intros H. injection H as <- <-. split; [|reflexivity]. right. right. left. eauto. }
  destruct (is_file _ _); [|discriminate].
  intros H. injection H as <- <-. split; [|reflexivity]. do 3 right. left. eauto.
Qed.

Lemma mkdirSync_returns (h : Host) (p : string) (st : State) :
  has_nul p = false ->
  fs_fault h (length (trace st)) (EvMkdir p) = None ->
  existsb (is_file (files st)) (ancestors h p) = false ->
  is_file (files st) p = false ->
  mkdirSync h p st =
    (inr tt,
     {| files := foldr make_dir (files st) (p :: ancestors h p);
        trace := trace st ++ [EvMkdir p] |}).
Proof. intros H1 H2 H3 H4. unfold mkdirSync. rewrite H1, H2, H3, H4. reflexivity. Qed.

(** A write that returns, and one that throws. *)
Lemma writeFileSync_inr (h : Host) (p data : string) (st st' : State) (u : unit) :
  writeFileSync h p data st = (inr u, st') ->
  st' = {| files := <[p := File data]> (files st);
           trace := trace st ++ [EvWrite p data] |} /\
  has_nul p = false /\
  files st !! dirname h p = Some Dir /\
  files st !! p <> Some Dir /\
  existsb (is_file (files st)) (ancestors h p) = false.
Proof.
  unfold writeFileSync. destruct (has_nul p); [discriminate|].
  destruct (fs_fault h _ _); [discriminate|].
  destruct (existsb _ _); [discriminate|].
  destruct (files st !! dirname h p) as [[|d]|]; try discriminate.
  destruct (files st !! p) as [[|d]|]; try discriminate;
    intros H; injection H as _ <-; repeat split; congruence.
Qed.

Lemma writeFileSync_inl (h : Host) (p data message : string) (st st' : State) :
  writeFileSync h p data st = (inl message, st') ->
  fs_error h message /\ files st' = files st.
Proof.
  unfold writeFileSync, fs_error. destruct (has_nul p).
  { intros H. injection H as <- <-. split; [|reflexivity]. right. left. eauto. }
  destruct (fs_fault h _ _) as [m|] eqn:F.
  { intros H. injection H as <- <-. split; [|reflexivity].
    left. eexists _, _. split; [|exact F]. reflexivity. }
  destruct (existsb _ _).
  { intros H. injection H as <- <-. split; [|reflexivity]. do 4 right. left. eauto. }
  destruct (files st !! dirname h p) as [[|d]|];
    try (intros H; injection H as <- <-; split; [|reflexivity];
         do 5 right; left; eauto).
  destruct (files st !! p) as [[|d]|]; try discriminate.
  intros H. injection H as <- <-. split; [|reflexivity]. do 6 right. eauto.
Qed.

Lemma writeFileSync_returns (h : Host) (p data : string) (st : State) :
  has_nul p = false ->
  fs_fault h (length (trace st)) (EvWrite p data) = None ->
  existsb (is_file (files st)) (ancestors h p) = false ->
  files st !! dirname h p = Some Dir ->
  files st !! p <> Some Dir ->
  writeFileSync h p data st =
    (inr tt,
     {| files := <[p := File data]> (files st);
        trace := trace st ++ [EvWrite p data] |}).
Proof.
  intros H1 H2 H3 H4 H5. unfold writeFileSync. rewrite H1, H2, H3, H4.
  destruct (files st !! p) as [[|d]|]; [congruence| |]; reflexivity.
Qed.

Lemma emits_mkdirSync (P : Event -> Prop) (h : Host) (p : string) :
  P (EvMkdir p) -> emits P (mkdirSync h p).
Proof.
  intros HP st. exists [EvMkdir p]. rewrite mkdirSync_trace. auto.
Qed.

Lemma emits_writeFileSync (P : Event -> Prop) (h : Host) (p data : string) :
  P (EvWrite p data) -> emits P (writeFileSync h p data).
Proof.
  intros HP st. exists [EvWrite p data]. rewrite writeFileSync_trace. auto.
Qed.

Lemma emits_execAsync (P : Event -> Prop) (h : Host) (cmd : string) (opts : ExecOptions) :
  P (EvExec cmd opts) -> emits P (execAsync h cmd opts).
Proof.
  intros HP st. exists [EvExec cmd opts]. unfold execAsync.
  destruct (spawn h _ _ _ _) as [[out err|msg] fs']; simpl; auto.
Qed.

Lemma throws_console (P : string -> Prop) (level : Console) (args : list string) :
  throws P (console level args).
Proof. intros st e st' H. discriminate. Qed.

Lemma throws_existsSync (P : string -> Prop) (p : string) : throws P (existsSync p).
Proof. intros st e st' H. discriminate. Qed.

Ltac emits_step :=
  first
    [ apply emits_ret
    | apply emits_throw
    | apply emits_console
    | apply emits_existsSync
    | apply emits_mkdirSync
    | apply emits_writeFileSync
    | apply emits_execAsync
    | apply emits_bind; [|intros ?]
    | apply emits_try_catch; [|intros ?]
    | match goal with
      | |- emits _ (if ?b then _ else _) => destruct b
      | |- emits _ (match ?x with (_, _) => _ end) => destruct x
      end ].

Ltac emits_auto := repeat emits_step.

(** The whole run spawns processes with bounded output buffers only. *)
Lemma cloneRepo_bounded (h : Host) (repo : string) :
  emits bounded_buffer (cloneRepo h repo).
Proof.
  unfold cloneRepo, cloneRepoBody, parseRepo, detectServerless, serverlessClone,
    gitClone, resolveCacheDir, ensureDir, tryUpdate, cloneAndReturn, cloneAttempt,
    rethrowClone.
  emits_auto; simpl; try exact I; eexists; (split; [reflexivity|lia]).
Qed.

(** The serverless branch accesses the file system and the console only. *)
Lemma serverlessClone_no_exec (h : Host) (repo owner repoName : string) :
  emits (fun e => is_exec e = false) (serverlessClone h repo owner repoName).
Proof.
  unfold serverlessClone, resolveCacheDir, ensureDir.
  emits_auto; reflexivity.
Qed.

(** ** Symbolic runs of the phases *)

Lemma truthy_opt_true (h : Host) (k : string) :
  Js.truthy_opt (env h !! k) = true <-> var_truthy h k.
Proof.
  unfold var_truthy. destruct (env h !! k) as [v|]; simpl.
  - rewrite truthy_true. split.
    + intros H. exists v. auto.
    + intros (v' & E & H). injection E as ->. assumption.
  - split; [discriminate|]. intros (v & E & _). discriminate.
Qed.

Lemma truthy_opt_unset (h : Host) (k : string) :
  var_unset h k -> Js.truthy_opt (env h !! k) = false.
Proof. unfold var_unset. intros ->. reflexivity. Qed.

(** What the chain of [||] of lines 28-33 tests. *)
Lemma envServerless_true_iff (h : Host) :
  envServerless h = true <->
  var_truthy h "VERCEL" \/
  var_truthy h "AWS_LAMBDA_FUNCTION_NAME" \/
  var_truthy h "VERCEL_ENV" \/
  (~ var_truthy h "TEMP" /\ ~ var_truthy h "TMP" /\ platform h <> "win32").
Proof.
  unfold envServerless.
  rewrite !orb_true_iff, !andb_true_iff, !negb_true_iff, !bool_decide_eq_true,
    bool_decide_eq_false, <- !truthy_opt_true.
  split.
  - intros [[[[H|H]|H]|H]|[[H1 H2] H3]]; try tauto.
    + left. rewrite H. reflexivity.
    + right. right. right. rewrite H1, H2. repeat split; try discriminate. assumption.
  - intros [H|[H|[H|(H1 & H2 & H3)]]]; try tauto.
    right. repeat split; try assumption.
    + destruct (Js.truthy_opt (env h !! "TEMP")); congruence.
    + destruct (Js.truthy_opt (env h !! "TMP")); congruence.
Qed.

Lemma heuristics_envServerless (h : Host) : heuristics h -> envServerless h = true.
Proof.
  intros H. apply envServerless_true_iff. exact H.
Qed.

Lemma envServerless_false (h : Host) : ~ heuristics h -> envServerless h = false.
Proof.
  intros H. destruct (envServerless h) eqn:E; [|reflexivity].
  exfalso. apply H. apply envServerless_true_iff. exact E.
Qed.

Lemma detectServerless_run (h : Host) (st : State) :
  detectServerless h st =
  if envServerless h then (inr true, st)
  else
    match spawn h (length (trace st)) "git --version" probeOptions (files st) with
    | (Resolved _ _, fs') =>
        (inr false,
         {| files := fs'; trace := trace st ++ [EvExec "git --version" probeOptions] |})
    | (Rejected _, fs') =>
        (inr true,
         {| files := fs';
            trace := trace st ++
              [EvExec "git --version" probeOptions;
               EvConsole ConsoleLog ["[cloneRepo] Git not available, using serverless mode"]] |})
    end.
Proof.
  unfold detectServerless. destruct (envServerless h); [reflexivity|].
  unfold try_catch, bind, execAsync, console, ret, record. simpl.
  destruct (spawn h _ _ _ _) as [[out err|msg] fs']; simpl; [reflexivity|].
  rewrite <- app_assoc. reflexivity.
Qed.

Lemma ensureDir_present (h : Host) (d : string) (st : State) :
  is_Some (files st !! d) ->
  ensureDir h d st = (inr tt, record (EvExists d) st).
Proof.
  intros H. unfold ensureDir, bind, existsSync.
  rewrite (bool_decide_eq_true_2 _ H). reflexivity.
Qed.

(** What a successful [ensureDir] leaves: the files as they were, with
    directories created at some of the path and its ancestors. *)
Lemma ensureDir_files (h : Host) (d : string) (st st' : State) (u : unit) :
  ensureDir h d st = (inr u, st') ->
  is_Some (files st' !! d) /\
  exists l,
    files st' = foldr make_dir (files st) l /\
    forall q, q ∈ l -> q ∈ d :: ancestors h d.
Proof.
  unfold ensureDir, bind, existsSync.
  destruct (bool_decide (is_Some (files st !! d))) eqn:E; simpl.
  - unfold ret. intros H. injection H as _ <-. simpl.
    apply bool_decide_eq_true in E. split; [exact E|].
    exists []. split; [reflexivity|]. intros q Hq. inversion Hq.
  - intros H. apply mkdirSync_inr in H as (-> & _). simpl. split.
    + apply (make_dirs_present _ (d :: ancestors h d)). left.
    + exists (d :: ancestors h d). auto.
Qed.

Lemma ensureDir_ok (h : Host) (d : string) (st st' : State) :
  ensureDir h d st = (inr tt, st') ->
  is_Some (files st' !! d) /\
  (forall p, is_Some (files st !! p) -> is_Some (files st' !! p)).
Proof.
  intros H. apply ensureDir_files in H as (Hd & l & Hl & _).
  split; [assumption|]. intros p [nd Hp].
  rewrite Hl, (make_dirs_keeps _ _ _ _ Hp). eauto.
Qed.

Lemma ensureDir_inl (h : Host) (d message : string) (st st' : State) :
  ensureDir h d st = (inl message, st') ->
  fs_error h message /\ files st' = files st.
Proof.
  unfold ensureDir, bind, existsSync.
  destruct (bool_decide (is_Some (files st !! d))); simpl; [discriminate|].
  intros H. apply mkdirSync_inl in H. exact H.
Qed.

(** Without a fault of the operating system, a NUL byte or a regular file in
    the way, the directory gets created. *)
Lemma ensureDir_returns (h : Host) (d : string) (st : State) :
  (forall n e, fs_fault h n e = None) ->
  has_nul d = false ->
  existsb (is_file (files st)) (d :: ancestors h d) = false ->
  exists st', ensureDir h d st = (inr tt, st').
Proof.
  intros Hf Hn Hfile. cbn [existsb] in Hfile.
  apply orb_false_iff in Hfile as [Hd Hanc].
  unfold ensureDir, bind, existsSync.
  destruct (bool_decide (is_Some (files st !! d))); simpl; [unfold ret; eauto|].
  rewrite mkdirSync_returns; eauto.
Qed.

Lemma cloneAttempt_run (h : Host) (owner repoName dir : string) (st : State) :
  cloneAttempt h owner repoName dir st =
  match spawn h (length (trace st)) "git --version" gitCheckOptions (files st) with
  | (Rejected _, fs1) =>
      (inl git_missing,
       {| files := fs1; trace := trace st ++ [EvExec "git --version" gitCheckOptions] |})
  | (Resolved _ _, fs1) =>
      let cmd := cloneCommand owner repoName dir in
      let tr :=
        trace st ++ [EvExec "git --version" gitCheckOptions; EvExec cmd cloneOptions] in
      match spawn h (S (length (trace st))) cmd cloneOptions fs1 with
      | (Rejected message, fs2) =>
          rethrowClone message {| files := fs2; trace := tr |}
      | (Resolved _ stderr, fs2) =>
          if stderrIsError stderr
          then rethrowClone ("Git clone error: " +:+ stderr) {| files := fs2; trace := tr |}
          else (inr tt, {| files := fs2; trace := tr |})
      end
  end.
Proof.
  unfold cloneAttempt, try_catch, bind, execAsync, ret, throw. simpl.
  destruct (spawn h (length (trace st)) _ _ _) as [[out err|msg] fs1]; simpl;
    [|reflexivity].
  rewrite length_app. simpl. rewrite Nat.add_1_r, <- app_assoc. simpl.
  destruct (spawn h (S (length (trace st))) _ _ _) as [[out2 err2|msg2] fs2]; simpl;
    [|reflexivity].
  destruct (stderrIsError err2); reflexivity.
Qed.

Lemma tryUpdate_run (h : Host) (repo dir : string) (st : State) :
  tryUpdate h repo dir st =
  let gitDir := join h dir ".git" in
  if bool_decide (is_Some (files st !! gitDir)) then
    let cmd := pullCommand dir in
    match spawn h (S (length (trace st))) cmd pullOptions (files st) with
    | (Resolved _ _, fs') =>
        (inr true,
         {| files := fs';
            trace := trace st ++
              [EvExists gitDir; EvExec cmd pullOptions;
               EvConsole ConsoleLog ["Updated existing repository " +:+ repo]] |})
    | (Rejected message, fs') =>
        (inr false,
         {| files := fs';
            trace := trace st ++
              [EvExists gitDir; EvExec cmd pullOptions;
               EvConsole ConsoleWarn
                 ["Failed to update repository, will re-clone: " +:+ message]] |})
    end
  else (inr false, record (EvExists gitDir) st).
Proof.
  unfold tryUpdate, try_catch, bind, existsSync, execAsync, console, ret, record. simpl.
  destruct (bool_decide _); [|reflexivity].
  simpl. rewrite length_app. simpl. rewrite Nat.add_1_r.
  destruct (spawn h _ _ _ _) as [[out err|msg] fs']; simpl;
    rewrite <- !app_assoc; reflexivity.
Qed.

(** After a valid identity and a serverless verdict the call is the
    serverless branch. *)
Lemma cloneRepo_serverless_stage (h : Host) (repo owner name : string) (st0 st : State) :
  parseRepo repo st0 = (inr (owner, name), st0) ->
  detectServerless h st0 = (inr true, st) ->
  cloneRepo h repo st0 = outerCatch repo (serverlessClone h repo owner name st).
Proof.
  intros Hp Hd. rewrite cloneRepo_outerCatch. unfold cloneRepoBody, bind.
  rewrite Hp, Hd. reflexivity.
Qed.

(** After a valid identity and a verdict that git is usable the call is the
    git branch. *)
Lemma cloneRepo_git_stage (h : Host) (repo owner name : string) (st0 st : State) :
  parseRepo repo st0 = (inr (owner, name), st0) ->
  detectServerless h st0 = (inr false, st) ->
  cloneRepo h repo st0 = outerCatch repo (gitClone h repo owner name st).
Proof.
  intros Hp Hd. rewrite cloneRepo_outerCatch. unfold cloneRepoBody, bind.
  rewrite Hp, Hd. reflexivity.
Qed.

Lemma gitClone_stage (h : Host) (repo owner name dir : string) (st st1 st2 : State) :
  resolveCacheDir h owner name false st = (inr dir, st1) ->
  tryUpdate h repo dir st1 = (inr false, st2) ->
  gitClone h repo owner name st = cloneAndReturn h repo owner name dir st2.
Proof.
  intros Hr Hu. unfold gitClone, bind. rewrite Hr, Hu. reflexivity.
Qed.

Lemma parseRepo_inr (repo owner name : string) (st st' : State) :
  parseRepo repo st = (inr (owner, name), st') ->
  st' = st /\
  Js.split "/" repo = [owner; name] /\
  owner <> EmptyString /\ name <> EmptyString /\
  repo = owner +:+ "/" +:+ name /\ no_slash owner /\ no_slash name.
Proof.
  intros H.
  destruct (parseRepo_cases repo st) as [(o & n & E & Hs & Ho & Hn) | [E _]];
    rewrite E in H; [|discriminate].
  injection H as <- <- <-.
  apply split_two_iff in Hs as Hs'. destruct Hs' as (? & ? & ?). auto 10.
Qed.

Lemma parseRepo_inl (repo message : string) (st st' : State) :
  parseRepo repo st = (inl message, st') ->
  st' = st /\
  message = invalid_format repo /\
  ~ exists owner name,
      Js.split "/" repo = [owner; name] /\
      owner <> EmptyString /\ name <> EmptyString.
Proof.
  intros H.
  destruct (parseRepo_cases repo st) as [(o & n & E & _) | [E Hno]];
    rewrite E in H; [discriminate|].
  injection H as <- <-. auto.
Qed.

(** The two directions of the classification of a diagnostic stream. *)
Lemma stderrIsError_intro (stderr marker : string) :
  In marker errorIndicators -> contains_ci stderr marker ->
  ~ contains stderr "Cloning into" -> ~ contains stderr "remote:" ->
  stderrIsError stderr = true.
Proof.
  intros Hm Hi Hn1 Hn2. unfold stderrIsError.
  rewrite !andb_true_iff, !negb_true_iff, !includes_false, existsb_exists.
  repeat split; try assumption.
  - destruct stderr; [|reflexivity]. exfalso.
    destruct Hi as (pre & mid & post & E & Hl).
    destruct pre; [|discriminate]. destruct mid; [|discriminate].
    simpl in Hm. intuition (subst; discriminate).
  - exists marker. split; [assumption|]. apply includes_lower_spec. assumption.
Qed.

Lemma stderrIsError_elim (stderr : string) :
  stderrIsError stderr = true ->
  (exists marker, In marker errorIndicators /\ contains_ci stderr marker) /\
  ~ contains stderr "Cloning into" /\ ~ contains stderr "remote:".
Proof.
  unfold stderrIsError.
  rewrite !andb_true_iff, !negb_true_iff, !includes_false, existsb_exists.
  intros [[[_ H1] H2] (m & Hm & Hi)]. repeat split; try assumption.
  exists m. split; [assumption|]. apply includes_lower_spec. assumption.
Qed.

(** ** The marker body *)

Lemma escape_char_plain (c : ascii) :
  Json.needs_escape c = false -> Json.escape_char c = String c EmptyString.
Proof.
  unfold Json.needs_escape, Json.escape_char. cbv zeta.
  intros H. apply orb_false_iff in H as [H H3]. apply orb_false_iff in H as [H1 H2].
  rewrite H1, H2, H3.
  apply Nat.ltb_ge in H3.
  repeat match goal with
         | |- context [Nat.eqb ?a ?b] => destruct (Nat.eqb_spec a b); [lia|]
         end.
  reflexivity.
Qed.

Lemma escape_plain (s : string) : Json.plain s = true -> Json.escape s = s.
Proof.
  induction s as [|c s IH]; [reflexivity|].
  simpl. intros H. apply andb_true_iff in H as [Hc Hs].
  apply negb_true_iff in Hc.
  rewrite (escape_char_plain _ Hc), (IH Hs). reflexivity.
Qed.

(** For an identifier without quotes, backslashes and control characters
    the marker body is the identifier between fixed texts. *)
Lemma markerBody_plain (repo : string) :
  Json.plain repo = true ->
  markerBody repo =
    "{" +:+ Js.quote +:+ "repo" +:+ Js.quote +:+ ":" +:+ Js.quote +:+ repo +:+ Js.quote
    +:+ "," +:+ Js.quote +:+ "cloned" +:+ Js.quote +:+ ":false"
    +:+ "," +:+ Js.quote +:+ "serverless" +:+ Js.quote +:+ ":true}".
Proof.
  intros H. unfold markerBody, Json.stringify.
  cbn [Json.stringify_fields].
  unfold Json.stringify_field, Json.stringify_value, Json.quote_string.
  cbn [fst snd].
  rewrite (escape_plain _ H).
  change (Json.escape "repo") with "repo".
  change (Json.escape "cloned") with "cloned".
  change (Json.escape "serverless") with "serverless".
  rewrite !string_app_assoc. reflexivity.
Qed.

(** * The claims *)

(** C3. Identity parsing succeeds, with the owner and the name equal to the
    two segments, exactly when splitting the input on the slash yields
    exactly two non-empty segments, that is when the input is
    [owner/name] with both parts non-empty and free of slashes.  On any
    other input the call fails with the invalid-format error, and the only
    thing it has done by then is report that error on the console: the file
    system is untouched and no event of the trace is a file-system access or
    a spawned process. *)
Theorem parse_identity (h : Host) (repo : string) (st : State) :
  match parseRepo repo st with
  | (inr (owner, name), st') =>
      st' = st /\
      Js.split "/" repo = [owner; name] /\
      owner <> EmptyString /\ name <> EmptyString /\
      repo = owner +:+ "/" +:+ name /\ no_slash owner /\ no_slash name
  | (inl message, st') =>
      st' = st /\
      message = invalid_format repo /\
      (~ exists owner name,
           Js.split "/" repo = [owner; name] /\
           owner <> EmptyString /\ name <> EmptyString) /\
      (~ exists owner name,
           repo = owner +:+ "/" +:+ name /\
           owner <> EmptyString /\ name <> EmptyString /\
           no_slash owner /\ no_slash name) /\
      exists st'',
        cloneRepo h repo st =
          (inl ("Failed to clone repository " +:+ repo +:+ ": " +:+ invalid_format repo),
           st'') /\
        files st'' = files st /\
        exists evs,
          trace st'' = trace st ++ evs /\
          forallb (fun e => negb (is_fs e) && negb (is_exec e)) evs = true
  end.
Proof.
  destruct (parseRepo repo st) as [[message|[owner name]] st'] eqn:Hp.
  - destruct (parseRepo_inl _ _ _ _ Hp) as (-> & -> & Hno).
    repeat split; try assumption.
    + intros (o & n & -> & Ho & Hn & Hso & Hsn). apply Hno. exists o, n.
      repeat split; try assumption. apply split_two_iff. auto.
    + rewrite cloneRepo_outerCatch. unfold cloneRepoBody, bind. rewrite Hp.
      simpl. eexists. split; [reflexivity|]. split; [reflexivity|].
      eexists. split; reflexivity.
  - apply (parseRepo_inr _ _ _ _ _ Hp).
Qed.

(** C4. The diagnostic text of a clone is classified as a failure if and
    only if it contains, up to the case of letters, at least one of the
    markers [fatal:], [error:], [Permission denied], [not found], and does
    not contain the progress marker [Cloning into] or [remote:]. *)
Theorem stderr_failure_iff (stderr : string) :
  stderrIsError stderr = true <->
  (exists marker, In marker errorIndicators /\ contains_ci stderr marker) /\
  ~ (contains stderr "Cloning into" \/ contains stderr "remote:").
Proof.
  split.
  - intros H. apply stderrIsError_elim in H as (Hm & Hn1 & Hn2). split; [assumption|tauto].
  - intros [(m & Hm & Hi) Hn]. apply (stderrIsError_intro _ m); tauto.
Qed.

Lemma stderr_failure_iff_witness :
  stderrIsError "FATAL: repository not reachable" = true /\
  (exists marker, In marker errorIndicators /\
     contains_ci "FATAL: repository not reachable" marker).
Proof.
  split; [reflexivity|].
  apply (proj1 (stderr_failure_iff "FATAL: repository not reachable")).
  reflexivity.
Defined.

(** ** The serverless branch *)

Lemma throws_mkdirSync (h : Host) (p : string) : throws (fs_error h) (mkdirSync h p).
Proof. intros st e st' H. apply (mkdirSync_inl _ _ _ _ _ H). Qed.

Lemma throws_writeFileSync (h : Host) (p data : string) :
  throws (fs_error h) (writeFileSync h p data).
Proof. intros st e st' H. apply (writeFileSync_inl _ _ _ _ _ _ H). Qed.

Lemma throws_ensureDir (h : Host) (d : string) : throws (fs_error h) (ensureDir h d).
Proof.
  unfold ensureDir. apply throws_bind; [apply throws_existsSync|].
  intros []; [apply throws_ret|apply throws_mkdirSync].
Qed.

Lemma throws_resolveCacheDir (h : Host) (owner name : string) (b : bool) :
  throws (fs_error h) (resolveCacheDir h owner name b).
Proof.
  unfold resolveCacheDir. destruct b;
    repeat first [apply throws_ret | apply throws_ensureDir | apply throws_bind; [|intros ?]].
Qed.

Lemma throws_serverlessClone (h : Host) (repo owner name : string) :
  throws (fs_error h) (serverlessClone h repo owner name).
Proof.
  unfold serverlessClone.
  repeat first
    [ apply throws_ret | apply throws_resolveCacheDir | apply throws_writeFileSync
    | apply throws_console | apply throws_bind; [|intros ?] ].
Qed.

(** The path a successful resolution returns does not depend on the state. *)
Lemma resolveCacheDir_path (h : Host) (owner name : string) (b : bool)
    (st st1 : State) (p : string) :
  resolveCacheDir h owner name b st = (inr p, st1) -> p = cacheDir h owner name b.
Proof.
  unfold resolveCacheDir, cacheDir, bind, ret. destruct b.
  - destruct (ensureDir h _ st) as [[e|[]] sta]; [discriminate|].
    destruct (ensureDir h _ sta) as [[e|[]] stb]; [discriminate|].
    intros H. injection H as <- _. reflexivity.
  - destruct (ensureDir h _ st) as [[e|[]] sta]; [discriminate|].
    intros H. injection H as <- _. reflexivity.
Qed.

(** A serverless resolution that returns leaves the repository directory
    present. *)
Lemma resolveCacheDir_serverless_present (h : Host) (owner name dir : string)
    (st st1 : State) :
  resolveCacheDir h owner name true st = (inr dir, st1) ->
  is_Some (files st1 !! join h "/tmp" "bugsmith") /\
  is_Some (files st1 !! cacheDir h owner name true).
Proof.
  unfold resolveCacheDir, cacheDir, bind, ret.
  destruct (ensureDir h (join h "/tmp" "bugsmith") st) as [[e|[]] sta] eqn:Ea;
    [discriminate|].
  destruct (ensureDir h _ sta) as [[e|[]] stb] eqn:Eb; [discriminate|].
  intros H. injection H as _ <-.
  destruct (ensureDir_ok _ _ _ _ Ea) as [Ha _].
  destruct (ensureDir_ok _ _ _ _ Eb) as [Hb Hkeep]. auto.
Qed.

(** What a serverless run that returns has done. *)
Lemma serverlessClone_inr (h : Host) (repo owner name dir : string) (st st' : State) :
  serverlessClone h repo owner name st = (inr dir, st') ->
  let marker := join h (cacheDir h owner name true) ".bugsmith-serverless" in
  dir = cacheDir h owner name true /\
  exists sta,
    resolveCacheDir h owner name true st = (inr dir, sta) /\
    files st' = <[marker := File (markerBody repo)]> (files sta) /\
    has_nul marker = false /\
    files sta !! dirname h marker = Some Dir /\
    files sta !! marker <> Some Dir /\
    existsb (is_file (files sta)) (ancestors h marker) = false.
Proof.
  unfold serverlessClone, bind.
  destruct (resolveCacheDir h owner name true st) as [[e|d] sta] eqn:Hr; [discriminate|].
  pose proof (resolveCacheDir_path _ _ _ _ _ _ _ Hr) as ->.
  destruct (writeFileSync h _ _ sta) as [[e|u] stb] eqn:Hw; [discriminate|].
  apply writeFileSync_inr in Hw as (-> & Hn & Hparent & Hnd & Hanc).
  unfold console, ret, record. intros H. injection H as <- <-.
  split; [reflexivity|]. exists sta. repeat split; assumption.
Qed.

Lemma serverlessClone_ok (h : Host) (repo owner name dir : string) (st st' : State) :
  serverlessClone h repo owner name st = (inr dir, st') ->
  dir = cacheDir h owner name true /\
  files st' !! join h dir ".bugsmith-serverless" = Some (File (markerBody repo)).
Proof.
  intros H. apply serverlessClone_inr in H as (-> & sta & _ & Hf & _).
  split; [reflexivity|]. rewrite Hf. apply lookup_insert_eq.
Qed.

(** The directory a serverless run returns is there, and the marker lies in
    a directory. *)
Lemma serverlessClone_dir (h : Host) (repo owner name dir : string) (st st' : State) :
  serverlessClone h repo owner name st = (inr dir, st') ->
  is_Some (files st' !! dir) /\
  files st' !! dirname h (join h dir ".bugsmith-serverless") = Some Dir.
Proof.
  intros H.
  apply serverlessClone_inr in H as (-> & sta & Hr & Hf & _ & Hparent & Hnd & _).
  apply resolveCacheDir_serverless_present in Hr as [_ Hdir].
  rewrite Hf. split.
  - apply lookup_insert_is_Some.
    destruct (decide (join h (cacheDir h owner name true) ".bugsmith-serverless" =
                      cacheDir h owner name true)); auto.
  - rewrite lookup_insert_ne; [assumption|]. intros E. rewrite <- E in Hparent. auto.
Qed.

Lemma existsb_is_file_ext (fs fs' : gmap string node) (l : list string) :
  (forall q, is_file fs' q = is_file fs q) ->
  existsb (is_file fs') l = existsb (is_file fs) l.
Proof. intros H. induction l as [|q l IH]; simpl; [reflexivity|]. rewrite H, IH. reflexivity. Qed.

Lemma existsb_is_file_ext_in (fs fs' : gmap string node) (l : list string) :
  (forall q, In q l -> is_file fs' q = is_file fs q) ->
  existsb (is_file fs') l = existsb (is_file fs) l.
Proof.
  induction l as [|q l IH]; simpl; [reflexivity|]. intros H.
  rewrite (H q), IH; auto.
Qed.

Lemma existsb_false_In (fs : gmap string node) (l : list string) (q : string) :
  existsb (is_file fs) l = false -> In q l -> is_file fs q = false.
Proof.
  intros H Hin. destruct (is_file fs q) eqn:E; [|reflexivity].
  assert (existsb (is_file fs) l = true); [|congruence].
  apply existsb_exists. eauto.
Qed.

Lemma ancestors_head (h : Host) (p a : string) (l : list string) :
  ancestors h p = a :: l -> dirname h p = a.
Proof.
  unfold ancestors. destruct (String.length p); simpl; [discriminate|].
  destruct (String.eqb (dirname h p) p) eqn:E; [discriminate|].
  cbn [List.filter]. rewrite E. cbn [negb].
  intros H. injection H as H _. exact H.
Qed.

(** A path is not among its own ancestors. *)
Lemma ancestors_proper (h : Host) (p q : string) : In q (ancestors h p) -> q <> p.
Proof.
  unfold ancestors. intros H. apply filter_In in H as [_ H].
  intros ->. rewrite String.eqb_refl in H. discriminate.
Qed.

(** If the operating system refuses nothing, the paths hold no NUL byte, no
    regular file lies at or above the directory of the repository and the
    marker path is not a directory, the serverless branch returns. *)
Lemma serverlessClone_returns (h : Host) (repo owner name : string) (st : State) :
  let bugs := join h "/tmp" "bugsmith" in
  let dir := cacheDir h owner name true in
  let marker := join h dir ".bugsmith-serverless" in
  (forall n e, fs_fault h n e = None) ->
  has_nul bugs = false -> has_nul dir = false -> has_nul marker = false ->
  serverless_layout h owner name ->
  existsb (is_file (files st)) (ancestors h marker) = false ->
  files st !! marker <> Some Dir ->
  exists st', serverlessClone h repo owner name st = (inr dir, st').
Proof.
  intros bugs dir marker Hf Hn1 Hn2 Hn3 [L1 L2] Hfile Hm.
  assert (Hnotin : ~ In marker (ancestors h marker)).
  { intros Hin. exact (ancestors_proper _ _ _ Hin eq_refl). }
  fold bugs dir marker in L1, L2.
  assert (Hfile2 : existsb (is_file (files st)) (dir :: ancestors h dir) = false)
    by (rewrite <- L1; exact Hfile).
  assert (Hfile1 : existsb (is_file (files st)) (bugs :: ancestors h bugs) = false).
  { rewrite <- L2. cbn [existsb] in Hfile2. apply orb_false_iff in Hfile2. tauto. }
  destruct (ensureDir_returns h bugs st Hf Hn1 Hfile1) as [sta Ea].
  pose proof (ensureDir_files _ _ _ _ _ Ea) as (_ & l1 & Hl1 & Hsub1).
  assert (Hfile2' : existsb (is_file (files sta)) (dir :: ancestors h dir) = false).
  { rewrite (existsb_is_file_ext (files st)); [exact Hfile2|].
    intros q. rewrite Hl1. apply make_dirs_is_file. }
  destruct (ensureDir_returns h dir sta Hf Hn2 Hfile2') as [stb Eb].
  pose proof (ensureDir_files _ _ _ _ _ Eb) as (Hdir & l2 & Hl2 & Hsub2).
  assert (Hisfile : forall q, is_file (files stb) q = is_file (files st) q).
  { intros q. rewrite Hl2, make_dirs_is_file, Hl1. apply make_dirs_is_file. }
  assert (Hmarker : files stb !! marker = files st !! marker).
  { rewrite Hl2, make_dirs_other, Hl1, make_dirs_other; [reflexivity| |].
    - intros Hin. apply Hsub1 in Hin. apply Hnotin.
      rewrite L1, L2. right. apply list_elem_of_In. exact Hin.
    - intros Hin. apply Hsub2 in Hin. apply Hnotin.
      rewrite L1. apply list_elem_of_In. exact Hin. }
  unfold serverlessClone, resolveCacheDir, bind.
  fold bugs. rewrite Ea.
  change (join h bugs (repoDirName owner name)) with dir. rewrite Eb.
  unfold ret at 1. fold marker.
  rewrite writeFileSync_returns; try assumption.
  - unfold console, ret. eauto.
  - apply Hf.
  - rewrite (existsb_is_file_ext (files st)); assumption.
  - rewrite (ancestors_head _ _ _ _ L1).
    destruct Hdir as [nd Hnd]. rewrite Hnd. f_equal.
    assert (Hd : is_file (files stb) dir = false).
    { rewrite Hisfile. apply (existsb_false_In _ (ancestors h marker)); [assumption|].
      rewrite L1. left. reflexivity. }
    unfold is_file in Hd. rewrite Hnd in Hd. destruct nd; [reflexivity|discriminate].
  - rewrite Hmarker. exact Hm.
Qed.

(** C1 (amended).  When the environment is classified as serverless, the
    acquisition that follows never spawns the version-control executable.
    If it returns, the returned directory is the cache directory under
    [/tmp], it exists, and the marker file [.bugsmith-serverless] lies in a
    directory and its body is the JSON object with [repo] equal to
    [owner/name], [cloned] false and [serverless] true.  It fails only when
    a file-system mutation (creating a directory or writing the marker)
    throws; and it does return when the operating system refuses nothing,
    the paths hold no NUL byte, no regular file lies at the repository
    directory or above it, and the marker path is not a directory. *)
Theorem serverless_acquisition (h : Host) (repo owner name : string) (st0 st : State) :
  parseRepo repo st0 = (inr (owner, name), st0) ->
  detectServerless h st0 = (inr true, st) ->
  let bugs := join h "/tmp" "bugsmith" in
  let dir := cacheDir h owner name true in
  let marker := join h dir ".bugsmith-serverless" in
  repo = owner +:+ "/" +:+ name /\
  markerBody repo =
    Json.stringify [("repo", Json.Str (owner +:+ "/" +:+ name));
                    ("cloned", Json.Bool false); ("serverless", Json.Bool true)] /\
  (Json.plain repo = true ->
   markerBody repo =
     "{" +:+ Js.quote +:+ "repo" +:+ Js.quote +:+ ":" +:+ Js.quote +:+ repo +:+ Js.quote
     +:+ "," +:+ Js.quote +:+ "cloned" +:+ Js.quote +:+ ":false"
     +:+ "," +:+ Js.quote +:+ "serverless" +:+ Js.quote +:+ ":true}") /\
  (exists evs,
     trace (snd (cloneRepo h repo st0)) = trace st ++ evs /\
     Forall (fun e => is_exec e = false) evs) /\
  (forall d st', cloneRepo h repo st0 = (inr d, st') ->
     d = dir /\
     is_Some (files st' !! dir) /\
     files st' !! dirname h marker = Some Dir /\
     (dirname h marker = dir -> files st' !! dir = Some Dir) /\
     files st' !! marker = Some (File (markerBody repo))) /\
  (forall e st', cloneRepo h repo st0 = (inl e, st') ->
     exists cause, e = wrapError repo cause /\ fs_error h cause) /\
  ((forall n e, fs_fault h n e = None) ->
   has_nul bugs = false -> has_nul dir = false -> has_nul marker = false ->
   serverless_layout h owner name ->
   existsb (is_file (files st)) (ancestors h marker) = false ->
   files st !! marker <> Some Dir ->
   exists st', cloneRepo h repo st0 = (inr dir, st')).
Proof.
  intros Hp Hd bugs dir marker.
  destruct (parseRepo_inr _ _ _ _ _ Hp) as (_ & _ & _ & _ & Hrepo & _).
  rewrite (cloneRepo_serverless_stage _ _ _ _ _ _ Hp Hd).
  split; [assumption|]. split; [rewrite <- Hrepo; reflexivity|].
  split; [apply markerBody_plain|].
  split; [|split; [|split]].
  - destruct (serverlessClone_no_exec h repo owner name st) as (evs & Ht & Hf).
    destruct (serverlessClone h repo owner name st) as [[e|d] st1]; simpl in *.
    + exists (evs ++ [EvConsole ConsoleError ["Error cloning repository " +:+ repo +:+ ":"; e]]).
      rewrite Ht, app_assoc. split; [reflexivity|].
      apply Forall_app. split; [assumption|]. repeat constructor.
    + exists evs. auto.
  - intros d st' H.
    destruct (serverlessClone h repo owner name st) as [[e|d1] st1] eqn:E;
      simpl in H; [discriminate|].
    injection H as <- <-.
    destruct (serverlessClone_ok _ _ _ _ _ _ _ E) as [Hdir Hfile].
    destruct (serverlessClone_dir _ _ _ _ _ _ _ E) as [Hpresent Hparent].
    subst d1. fold dir in Hfile, Hpresent, Hparent. fold marker in Hfile, Hparent.
    repeat split; try assumption.
    intros Heq. rewrite <- Heq. exact Hparent.
  - intros e st' H.
    destruct (serverlessClone h repo owner name st) as [[e1|d1] st1] eqn:E;
      simpl in H; [|discriminate].
    injection H as <- _. exists e1. split; [reflexivity|].
    apply (throws_serverlessClone _ _ _ _ _ _ _ E).
  - intros Hf Hn1 Hn2 Hn3 Hl Hfile Hm.
    destruct (serverlessClone_returns h repo owner name st Hf Hn1 Hn2 Hn3 Hl Hfile Hm)
      as [st' E].
    rewrite E. simpl. eauto.
Qed.

Lemma serverless_acquisition_witness :
  parseRepo "octocat/Hello-World" (boot empty) =
    (inr ("octocat", "Hello-World"), boot empty) /\
  detectServerless vercel_host (boot empty) = (inr true, boot empty) /\
  exists st',
    cloneRepo vercel_host "octocat/Hello-World" (boot empty) =
      (inr "/tmp/bugsmith/octocat-Hello-World", st') /\
    files st' !! "/tmp/bugsmith/octocat-Hello-World" = Some Dir.
Proof.
  assert (Hp : parseRepo "octocat/Hello-World" (boot empty) =
               (inr ("octocat", "Hello-World"), boot empty)) by reflexivity.
  assert (Hd : detectServerless vercel_host (boot empty) = (inr true, boot empty))
    by reflexivity.
  split; [exact Hp|]. split; [exact Hd|].
  destruct (serverless_acquisition vercel_host _ _ _ _ _ Hp Hd)
    as (_ & _ & _ & _ & Hret & _ & Htotal).
  destruct Htotal as [st' E].
  - intros n e. reflexivity.
  - reflexivity.
  - reflexivity.
  - reflexivity.
  - split; reflexivity.
  - reflexivity.
  - vm_compute. discriminate.
  - exists st'. split; [exact E|].
    destruct (Hret _ _ E) as (_ & _ & _ & Hdir & _). apply Hdir. reflexivity.
Defined.

(** C1 as stated fails: on a file system that cannot be written the
    environment is classified as serverless and the call throws instead of
    returning a directory with the marker. *)
Lemma serverless_acquisition_can_fail :
  ~ (forall (h : Host) (repo owner name : string) (st0 st : State),
       parseRepo repo st0 = (inr (owner, name), st0) ->
       detectServerless h st0 = (inr true, st) ->
       exists dir st',
         cloneRepo h repo st0 = (inr dir, st') /\
         files st' !! join h dir ".bugsmith-serverless" = Some (File (markerBody repo))).
Proof.
  intros H.
  destruct (H readonly_host "octocat/Hello-World" "octocat" "Hello-World"
              (boot empty) (boot empty) eq_refl eq_refl) as (dir & st' & E & _).
  vm_compute in E. discriminate.
Qed.

(** ** The classifier *)

(** C2 (amended).  The classifier declares the environment serverless, without
    spawning anything and without touching the state, if one of the four
    heuristics holds, where the platform marker, the function name and the
    environment tag count when they are set to a non-empty value and the
    fourth heuristic is that both temp-directory variables are unset or
    empty on a host that is not Windows.  If none of the four holds it runs
    the version query, once, with a timeout of 2000 ms and an output buffer
    of 1 MiB: when the query succeeds the verdict is not serverless, when it
    fails the failure is logged and the verdict is serverless.  It never
    throws. *)
Theorem classifier_verdict (h : Host) (st : State) :
  (heuristics h -> detectServerless h st = (inr true, st)) /\
  (~ heuristics h ->
   detectServerless h st =
     match spawn h (length (trace st)) "git --version" probeOptions (files st) with
     | (Resolved _ _, fs') =>
         (inr false,
          {| files := fs'; trace := trace st ++ [EvExec "git --version" probeOptions] |})
     | (Rejected _, fs') =>
         (inr true,
          {| files := fs';
             trace := trace st ++
               [EvExec "git --version" probeOptions;
                EvConsole ConsoleLog
                  ["[cloneRepo] Git not available, using serverless mode"]] |})
     end) /\
  timeout probeOptions = Some 2000%Z /\
  maxBuffer probeOptions = Some (1024 * 1024)%Z /\
  (exists degraded st', detectServerless h st = (inr degraded, st')).
Proof.
  rewrite detectServerless_run. split; [|split; [|split; [|split]]]; try reflexivity.
  - intros H. rewrite (heuristics_envServerless _ H). reflexivity.
  - intros H. rewrite (envServerless_false _ H). reflexivity.
  - destruct (envServerless h); [eauto|].
    destruct (spawn h _ _ _ _) as [[out err|msg] fs']; eauto.
Qed.

Lemma classifier_verdict_witness :
  (heuristics vercel_host /\
   detectServerless vercel_host (boot empty) = (inr true, boot empty)) /\
  (heuristics empty_temp_host /\
   detectServerless empty_temp_host (boot empty) = (inr true, boot empty)) /\
  (~ heuristics git_host /\
   detectServerless git_host (boot empty) =
     (inr false,
      {| files := empty; trace := [EvExec "git --version" probeOptions] |})) /\
  (~ heuristics nogit_host /\
   detectServerless nogit_host (boot empty) =
     (inr true,
      {| files := empty;
         trace := [EvExec "git --version" probeOptions;
                   EvConsole ConsoleLog
                     ["[cloneRepo] Git not available, using serverless mode"]] |})).
Proof.
  assert (H1 : heuristics vercel_host).
  { left. exists "1". split; [reflexivity|discriminate]. }
  assert (H2 : ~ heuristics git_host).
  { intros H. apply heuristics_envServerless in H. vm_compute in H. discriminate. }
  assert (H3 : ~ heuristics nogit_host).
  { intros H. apply heuristics_envServerless in H. vm_compute in H. discriminate. }
  assert (H4 : heuristics empty_temp_host).
  { apply envServerless_true_iff. reflexivity. }
  split; [|split; [|split]].
  - split; [exact H1|].
    exact (proj1 (classifier_verdict vercel_host (boot empty)) H1).
  - split; [exact H4|].
    exact (proj1 (classifier_verdict empty_temp_host (boot empty)) H4).
  - split; [exact H2|].
    rewrite (proj1 (proj2 (classifier_verdict git_host (boot empty))) H2).
    reflexivity.
  - split; [exact H3|].
    rewrite (proj1 (proj2 (classifier_verdict nogit_host (boot empty))) H3).
    reflexivity.
Defined.

(** C2 as stated fails: a function-name variable that is set, but to the
    empty string, does not make the environment serverless. *)
Lemma classifier_set_but_empty :
  ~ (forall (h : Host) (st : State),
       (var_truthy h "VERCEL" \/
        var_set h "AWS_LAMBDA_FUNCTION_NAME" \/
        var_set h "VERCEL_ENV" \/
        (var_unset h "TEMP" /\ var_unset h "TMP" /\ platform h <> "win32")) ->
       exists st', detectServerless h st = (inr true, st')).
Proof.
  intros H.
  destruct (H empty_name_host (boot empty)) as [st' E].
  - right. left. exists EmptyString. reflexivity.
  - vm_compute in E. discriminate.
Qed.

(** ** Resources of spawned processes *)

Lemma detectServerless_timeout (h : Host) :
  emits (fun e => has_timeout e /\ bounded_buffer e) (detectServerless h).
Proof.
  unfold detectServerless.
  emits_auto; simpl; try (split; exact I);
    split; eexists; (split; [reflexivity|lia]).
Qed.

(** C9 (amended).  Every external process the call spawns carries a bounded
    output buffer, and the probe of the classifier carries an explicit
    timeout as well. *)
Theorem exec_resources (h : Host) (repo : string) (st : State) :
  (exists evs,
     trace (snd (cloneRepo h repo st)) = trace st ++ evs /\
     Forall bounded_buffer evs) /\
  (exists evs,
     trace (snd (detectServerless h st)) = trace st ++ evs /\
     Forall (fun e => has_timeout e /\ bounded_buffer e) evs).
Proof.
  split.
  - apply cloneRepo_bounded.
  - apply detectServerless_timeout.
Qed.

(** C9 as stated fails: on a machine with git the clone is spawned without
    a timeout. *)
Lemma exec_without_timeout :
  ~ (forall (h : Host) (repo : string) (st : State),
       exists evs,
         trace (snd (cloneRepo h repo st)) = trace st ++ evs /\
         Forall has_timeout evs).
Proof.
  intros H.
  destruct (H git_host "octocat/Hello-World" (boot empty)) as (evs & E & F).
  vm_compute in E. subst evs.
  rewrite Forall_forall in F.
  destruct (F (EvExec (cloneCommand "octocat" "Hello-World"
                         "/tmp/bugsmith/octocat-Hello-World") cloneOptions))
    as (t & Ht & _).
  - do 5 apply list_elem_of_further. apply list_elem_of_here.
  - discriminate.
Qed.

(** ** Resolving the cache directory *)

(** C7.  The cache path is a function of the repository identity and the
    serverless flag (and of the host environment) alone: whatever the state
    of the file system and of the run, a resolution that returns yields
    [cacheDir].  After a call that returned, a second call with the same
    arguments returns the same path and does not throw: the directories
    exist by then, so it creates nothing and leaves the files as they
    are. *)
Theorem resolve_idempotent (h : Host) (owner name : string) (b : bool)
    (st st1 : State) (p : string) :
  resolveCacheDir h owner name b st = (inr p, st1) ->
  p = cacheDir h owner name b /\
  (forall st' st1' p',
     resolveCacheDir h owner name b st' = (inr p', st1') -> p' = p) /\
  exists st2 evs,
    resolveCacheDir h owner name b st1 = (inr p, st2) /\
    files st2 = files st1 /\
    trace st2 = trace st1 ++ evs /\
    Forall (fun e => is_fs_mutation e = false) evs.
Proof.
  intros H. pose proof (resolveCacheDir_path _ _ _ _ _ _ _ H) as Hp.
  split; [assumption|]. split.
  - intros st' st1' p' H'. apply resolveCacheDir_path in H'. congruence.
  - subst p. revert H. unfold resolveCacheDir, cacheDir, bind, ret. destruct b.
    + destruct (ensureDir h (join h "/tmp" "bugsmith") st) as [[e|[]] sta] eqn:Ea;
        [discriminate|].
      destruct (ensureDir h _ sta) as [[e|[]] stb] eqn:Eb; [discriminate|].
      intros H. injection H as <-.
      destruct (ensureDir_ok _ _ _ _ Ea) as [Ha _].
      destruct (ensureDir_ok _ _ _ _ Eb) as [Hb Hkeep].
      apply Hkeep in Ha.
      rewrite (ensureDir_present h _ stb Ha).
      rewrite (ensureDir_present h _ (record _ stb) Hb).
      eexists _, [_; _]. split; [reflexivity|]. split; [reflexivity|].
      split; [simpl; rewrite <- app_assoc; reflexivity|].
      repeat constructor.
    + destruct (ensureDir h (join h (gitTempBase h) "bugsmith") st) as [[e|[]] sta] eqn:Ea;
        [discriminate|].
      intros H. injection H as <-.
      destruct (ensureDir_ok _ _ _ _ Ea) as [Ha _].
      rewrite (ensureDir_present h _ sta Ha).
      eexists _, [_]. split; [reflexivity|]. split; [reflexivity|].
      split; [reflexivity|]. repeat constructor.
Qed.

Lemma resolve_idempotent_witness :
  resolveCacheDir vercel_host "octocat" "Hello-World" true (boot empty) =
    (inr "/tmp/bugsmith/octocat-Hello-World",
     snd (resolveCacheDir vercel_host "octocat" "Hello-World" true (boot empty))) /\
  exists st2,
    resolveCacheDir vercel_host "octocat" "Hello-World" true
      (snd (resolveCacheDir vercel_host "octocat" "Hello-World" true (boot empty))) =
    (inr "/tmp/bugsmith/octocat-Hello-World", st2).
Proof.
  assert (H : resolveCacheDir vercel_host "octocat" "Hello-World" true (boot empty) =
              (inr "/tmp/bugsmith/octocat-Hello-World",
               snd (resolveCacheDir vercel_host "octocat" "Hello-World" true (boot empty))))
    by (vm_compute; reflexivity).
  split; [exact H|].
  destruct (resolve_idempotent _ _ _ _ _ _ _ H) as (_ & _ & st2 & evs & E & _).
  exists st2. exact E.
Defined.

(** ** The git branch *)

Lemma rethrowClone_run (message : string) (st : State) :
  rethrowClone message st = (inl message, st) \/
  rethrowClone message st = (inl git_missing, st).
Proof.
  unfold rethrowClone.
  destruct (Js.includes message "git" && _); [right|left]; reflexivity.
Qed.

Lemma rethrowClone_spec (message : string) (st : State) :
  (contains message "git" /\
   (contains message "not found" \/ contains message "not in PATH") ->
   rethrowClone message st = (inl git_missing, st)) /\
  (~ (contains message "git" /\
      (contains message "not found" \/ contains message "not in PATH")) ->
   rethrowClone message st = (inl message, st)).
Proof.
  unfold rethrowClone.
  destruct (Js.includes message "git" &&
            (Js.includes message "not found" || Js.includes message "not in PATH")) eqn:E.
  - split; [reflexivity|]. intros H. exfalso. apply H.
    apply andb_true_iff in E as [E1 E2]. apply orb_true_iff in E2.
    rewrite !includes_spec in *. tauto.
  - split; [|reflexivity]. intros [H1 H2]. exfalso.
    apply includes_spec in H1. rewrite H1 in E. simpl in E.
    apply orb_false_iff in E as [E1 E2].
    destruct H2 as [H2|H2]; apply includes_spec in H2; congruence.
Qed.

(** Line 130: which error the inner handler throws. *)
Lemma rethrowClone_blames (message : string) (st : State) :
  (blames_git message -> rethrowClone message st = (inl git_missing, st)) /\
  (~ blames_git message -> rethrowClone message st = (inl message, st)).
Proof. exact (rethrowClone_spec message st). Qed.

Lemma tryUpdate_fresh (h : Host) (repo dir : string) (st : State) :
  files st !! join h dir ".git" = None ->
  tryUpdate h repo dir st = (inr false, record (EvExists (join h dir ".git")) st).
Proof.
  intros H. rewrite tryUpdate_run. cbv zeta.
  rewrite bool_decide_eq_false_2; [reflexivity|].
  rewrite H. intros [x Hx]. discriminate.
Qed.


Lemma cloneCommand_is_clone (owner name dir : string) :
  Js.startsWith (cloneCommand owner name dir) "git clone " = true.
Proof.
  apply startsWith_spec. unfold cloneCommand.
  exists (repoUrl owner name +:+ " " +:+ Js.quote +:+ dir +:+ Js.quote).
  reflexivity.
Qed.

(** The clone attempt, once reached: its events and its verdict. *)
Lemma cloneAndReturn_run (h : Host) (repo owner name dir : string) (st : State) :
  let probe := EvExec "git --version" gitCheckOptions in
  let clone := EvExec (cloneCommand owner name dir) cloneOptions in
  match spawn h (length (trace st)) "git --version" gitCheckOptions (files st) with
  | (Rejected _, fs1) =>
      cloneAndReturn h repo owner name dir st =
        (inl git_missing, {| files := fs1; trace := trace st ++ [probe] |})
  | (Resolved _ _, fs1) =>
      match spawn h (S (length (trace st))) (cloneCommand owner name dir) cloneOptions fs1 with
      | (Rejected message, fs2) =>
          exists cause,
            (cause = message \/ cause = git_missing) /\
            cloneAndReturn h repo owner name dir st =
              (inl cause, {| files := fs2; trace := trace st ++ [probe; clone] |})
      | (Resolved _ stderr, fs2) =>
          if stderrIsError stderr then
            exists cause,
              (cause = "Git clone error: " +:+ stderr \/ cause = git_missing) /\
              cloneAndReturn h repo owner name dir st =
                (inl cause, {| files := fs2; trace := trace st ++ [probe; clone] |})
          else
            cloneAndReturn h repo owner name dir st =
              (inr dir,
               {| files := fs2;
                  trace := trace st ++
                    [probe; clone;
                     EvConsole ConsoleLog
                       ["Successfully cloned repository " +:+ repo +:+ " to " +:+ dir]] |})
      end
  end.
Proof.
  cbv zeta. unfold cloneAndReturn, bind. rewrite cloneAttempt_run.
  destruct (spawn h (length (trace st)) _ _ _) as [[o1 e1|m1] fs1]; [|reflexivity].
  cbv zeta.
  destruct (spawn h (S (length (trace st))) _ _ _) as [[o2 e2|m2] fs2].
  - destruct (stderrIsError e2).
    + destruct (rethrowClone_run ("Git clone error: " +:+ e2)
                  {| files := fs2;
                     trace := trace st ++
                       [EvExec "git --version" gitCheckOptions;
                        EvExec (cloneCommand owner name dir) cloneOptions] |}) as [R|R];
        rewrite R; eexists; (split; [|reflexivity]); auto.
    + unfold console, ret, record. simpl. rewrite <- app_assoc. reflexivity.
  - destruct (rethrowClone_run m2
                {| files := fs2;
                   trace := trace st ++
                     [EvExec "git --version" gitCheckOptions;
                      EvExec (cloneCommand owner name dir) cloneOptions] |}) as [R|R];
      rewrite R; eexists; (split; [|reflexivity]); auto.
Qed.

(** The clone attempt, once reached and failing: which error it throws. *)
Lemma cloneAndReturn_cause (h : Host) (repo owner name dir : string) (st : State) :
  let probe := EvExec "git --version" gitCheckOptions in
  let clone := EvExec (cloneCommand owner name dir) cloneOptions in
  match spawn h (length (trace st)) "git --version" gitCheckOptions (files st) with
  | (Rejected _, fs1) =>
      cloneAndReturn h repo owner name dir st =
        (inl git_missing, {| files := fs1; trace := trace st ++ [probe] |})
  | (Resolved _ _, fs1) =>
      match spawn h (S (length (trace st))) (cloneCommand owner name dir) cloneOptions fs1 with
      | (Rejected message, fs2) =>
          exists cause,
            ((blames_git message -> cause = git_missing) /\
             (~ blames_git message -> cause = message)) /\
            cloneAndReturn h repo owner name dir st =
              (inl cause, {| files := fs2; trace := trace st ++ [probe; clone] |})
      | (Resolved _ stderr, fs2) =>
          if stderrIsError stderr then
            exists cause,
              ((blames_git ("Git clone error: " +:+ stderr) -> cause = git_missing) /\
               (~ blames_git ("Git clone error: " +:+ stderr) ->
                cause = "Git clone error: " +:+ stderr)) /\
              cloneAndReturn h repo owner name dir st =
                (inl cause, {| files := fs2; trace := trace st ++ [probe; clone] |})
          else
            cloneAndReturn h repo owner name dir st =
              (inr dir,
               {| files := fs2;
                  trace := trace st ++
                    [probe; clone;
                     EvConsole ConsoleLog
                       ["Successfully cloned repository " +:+ repo +:+ " to " +:+ dir]] |})
      end
  end.
Proof.
  cbv zeta. unfold cloneAndReturn, bind. rewrite cloneAttempt_run.
  destruct (spawn h (length (trace st)) _ _ _) as [[o1 e1|m1] fs1]; [|reflexivity].
  cbv zeta.
  destruct (spawn h (S (length (trace st))) _ _ _) as [[o2 e2|m2] fs2].
  - destruct (stderrIsError e2).
    + match goal with |- context [rethrowClone ?m ?s] =>
        destruct (rethrowClone_blames m s) as [Hyes Hno];
        destruct (rethrowClone m s) as [[c|u] s'] eqn:R end.
      * exists c. split; [split; intros Hb|].
        -- specialize (Hyes Hb). congruence.
        -- specialize (Hno Hb). congruence.
        -- destruct (rethrowClone_run ("Git clone error: " +:+ e2)
                       {| files := fs2;
                          trace := trace st ++
                            [EvExec "git --version" gitCheckOptions;
                             EvExec (cloneCommand owner name dir) cloneOptions] |})
             as [R'|R']; rewrite R in R'; injection R' as -> ->; reflexivity.
      * destruct (rethrowClone_run ("Git clone error: " +:+ e2)
                    {| files := fs2;
                       trace := trace st ++
                         [EvExec "git --version" gitCheckOptions;
                          EvExec (cloneCommand owner name dir) cloneOptions] |})
          as [R'|R']; rewrite R in R'; discriminate.
    + unfold console, ret, record. simpl. rewrite <- app_assoc. reflexivity.
  - match goal with |- context [rethrowClone ?m ?s] =>
      destruct (rethrowClone_blames m s) as [Hyes Hno];
      destruct (rethrowClone m s) as [[c|u] s'] eqn:R end.
    + exists c. split; [split; intros Hb|].
      * specialize (Hyes Hb). congruence.
      * specialize (Hno Hb). congruence.
      * destruct (rethrowClone_run m2
                    {| files := fs2;
                       trace := trace st ++
                         [EvExec "git --version" gitCheckOptions;
                          EvExec (cloneCommand owner name dir) cloneOptions] |})
          as [R'|R']; rewrite R in R'; injection R' as -> ->; reflexivity.
    + destruct (rethrowClone_run m2
                  {| files := fs2;
                     trace := trace st ++
                       [EvExec "git --version" gitCheckOptions;
                        EvExec (cloneCommand owner name dir) cloneOptions] |})
        as [R'|R']; rewrite R in R'; discriminate.
Qed.

Lemma fresh_steps_no_clone (h : Host) (repo owner name dir : string) :
  emits (fun e => is_clone e = false) (detectServerless h) /\
  emits (fun e => is_clone e = false) (resolveCacheDir h owner name false) /\
  emits (fun e => is_clone e = false) (tryUpdate h repo dir).
Proof.
  unfold detectServerless, resolveCacheDir, ensureDir, tryUpdate.
  repeat split; emits_auto; reflexivity.
Qed.

Lemma record_length (e : Event) (st : State) :
  length (trace (record e st)) = S (length (trace st)).
Proof. unfold record. simpl. rewrite length_app. simpl. apply Nat.add_1_r. Qed.

(** C5 (amended).  Without a prior checkout at the cache path, a call that
    succeeds in git mode has spawned the clone exactly once and returns the
    cache directory.  Whenever the clone exits normally with a diagnostic
    stream that contains [fatal:] and neither [Cloning into] nor [remote:],
    the call fails, and the error carries the text [Git clone error: ]
    followed by that stream; whenever the clone does not exit normally, the
    call fails and carries the message of that failure.  In both cases there
    is one exception: a message that contains [git] together with
    [not found] or [not in PATH] is replaced by the report that git is not
    installed. *)
Theorem fresh_clone (h : Host) (repo owner name dir : string) (st0 st st1 : State) :
  parseRepo repo st0 = (inr (owner, name), st0) ->
  detectServerless h st0 = (inr false, st) ->
  resolveCacheDir h owner name false st = (inr dir, st1) ->
  files st1 !! join h dir ".git" = None ->
  exists before evs,
    trace st1 = trace st0 ++ before /\
    Forall (fun e => is_clone e = false) before /\
    trace (snd (cloneRepo h repo st0)) = trace st1 ++ evs /\
    (forall d st', cloneRepo h repo st0 = (inr d, st') ->
       d = dir /\ length (List.filter is_clone evs) = 1%nat) /\
    (forall o1 e1 fs1 out stderr fs2,
       spawn h (S (length (trace st1))) "git --version" gitCheckOptions (files st1)
         = (Resolved o1 e1, fs1) ->
       spawn h (S (S (length (trace st1)))) (cloneCommand owner name dir) cloneOptions fs1
         = (Resolved out stderr, fs2) ->
       contains stderr "fatal:" ->
       ~ contains stderr "Cloning into" -> ~ contains stderr "remote:" ->
       (~ blames_git ("Git clone error: " +:+ stderr) ->
        exists st',
          cloneRepo h repo st0 =
            (inl (wrapError repo ("Git clone error: " +:+ stderr)), st')) /\
       (blames_git ("Git clone error: " +:+ stderr) ->
        exists st', cloneRepo h repo st0 = (inl (wrapError repo git_missing), st'))) /\
    (forall o1 e1 fs1 message fs2,
       spawn h (S (length (trace st1))) "git --version" gitCheckOptions (files st1)
         = (Resolved o1 e1, fs1) ->
       spawn h (S (S (length (trace st1)))) (cloneCommand owner name dir) cloneOptions fs1
         = (Rejected message, fs2) ->
       (~ blames_git message ->
        exists st', cloneRepo h repo st0 = (inl (wrapError repo message), st')) /\
       (blames_git message ->
        exists st', cloneRepo h repo st0 = (inl (wrapError repo git_missing), st'))).
Proof.
  intros Hp Hd Hr Hg.
  assert (Hb : exists before,
             trace st1 = trace st0 ++ before /\
             Forall (fun e => is_clone e = false) before).
  { destruct (fresh_steps_no_clone h repo owner name dir) as (E1 & E2 & _).
    destruct (E1 st0) as (ev1 & T1 & F1). rewrite Hd in T1. simpl in T1.
    destruct (E2 st) as (ev2 & T2 & F2). rewrite Hr in T2. simpl in T2.
    exists (ev1 ++ ev2). rewrite T2, T1, <- app_assoc. split; [reflexivity|].
    apply Forall_app. auto. }
  destruct Hb as (before & Hb1 & Hb2). exists before.
  cut (exists evs,
    trace (snd (cloneRepo h repo st0)) = trace st1 ++ evs /\
    (forall d st', cloneRepo h repo st0 = (inr d, st') ->
       d = dir /\ length (List.filter is_clone evs) = 1%nat) /\
    (forall o1 e1 fs1 out stderr fs2,
       spawn h (S (length (trace st1))) "git --version" gitCheckOptions (files st1)
         = (Resolved o1 e1, fs1) ->
       spawn h (S (S (length (trace st1)))) (cloneCommand owner name dir) cloneOptions fs1
         = (Resolved out stderr, fs2) ->
       contains stderr "fatal:" ->
       ~ contains stderr "Cloning into" -> ~ contains stderr "remote:" ->
       (~ blames_git ("Git clone error: " +:+ stderr) ->
        exists st',
          cloneRepo h repo st0 =
            (inl (wrapError repo ("Git clone error: " +:+ stderr)), st')) /\
       (blames_git ("Git clone error: " +:+ stderr) ->
        exists st', cloneRepo h repo st0 = (inl (wrapError repo git_missing), st'))) /\
    (forall o1 e1 fs1 message fs2,
       spawn h (S (length (trace st1))) "git --version" gitCheckOptions (files st1)
         = (Resolved o1 e1, fs1) ->
       spawn h (S (S (length (trace st1)))) (cloneCommand owner name dir) cloneOptions fs1
         = (Rejected message, fs2) ->
       (~ blames_git message ->
        exists st', cloneRepo h repo st0 = (inl (wrapError repo message), st')) /\
       (blames_git message ->
        exists st', cloneRepo h repo st0 = (inl (wrapError repo git_missing), st')))).
  { intros (evs & H). exists evs. auto. }
  clear before Hb1 Hb2.
  rewrite (cloneRepo_git_stage _ _ _ _ _ _ Hp Hd).
  rewrite (gitClone_stage _ _ _ _ _ _ _ _ Hr (tryUpdate_fresh _ repo _ _ Hg)).
  pose proof (cloneAndReturn_cause h repo owner name dir
                (record (EvExists (join h dir ".git")) st1)) as R.
  cbv zeta in R. rewrite record_length in R.
  change (files (record (EvExists (join h dir ".git")) st1)) with (files st1) in R.
  change (trace (record (EvExists (join h dir ".git")) st1))
    with (trace st1 ++ [EvExists (join h dir ".git")]) in R.
  destruct (spawn h (S (length (trace st1))) "git --version" gitCheckOptions (files st1))
    as [[o1 e1|m1] fs1] eqn:S1.
  - destruct (spawn h (S (S (length (trace st1)))) (cloneCommand owner name dir)
                cloneOptions fs1) as [[o2 e2|m2] fs2] eqn:S2.
    + destruct (stderrIsError e2) eqn:Hs.
      * destruct R as (cause & [Hyes Hno] & ->). simpl.
        eexists. split; [rewrite <- !app_assoc; reflexivity|].
        split; [intros d st' H; discriminate|]. split.
        -- intros ? ? ? ? ? ? H1 H2 _ _ _.
           injection H1 as <- <- <-. rewrite S2 in H2. injection H2 as <- <- <-.
           split; intros Hb; eexists.
           ++ rewrite (Hno Hb). reflexivity.
           ++ rewrite (Hyes Hb). reflexivity.
        -- intros ? ? ? ? ? H1 H2. injection H1 as <- <- <-.
           rewrite S2 in H2. discriminate.
      * rewrite R. simpl.
        eexists. split; [rewrite <- !app_assoc; reflexivity|].
        split; [|split].
        -- intros d st' H. injection H as <- _. split; [reflexivity|].
           cbn [List.filter is_clone Datatypes.app].
           rewrite cloneCommand_is_clone. reflexivity.
        -- intros ? ? ? ? ? ? H1 H2 Hf Hn1 Hn2.
           injection H1 as <- <- <-. rewrite S2 in H2. injection H2 as <- <- <-.
           exfalso.
           assert (stderrIsError e2 = true); [|congruence].
           apply (stderrIsError_intro _ "fatal:"); try assumption; [left; reflexivity|].
           destruct Hf as (pre & post & ->). exists pre, "fatal:", post. auto.
        -- intros ? ? ? ? ? H1 H2. injection H1 as <- <- <-.
           rewrite S2 in H2. discriminate.
    + destruct R as (cause & [Hyes Hno] & ->). simpl.
      eexists. split; [rewrite <- !app_assoc; reflexivity|].
      split; [intros d st' H; discriminate|]. split.
      * intros ? ? ? ? ? ? H1 H2. injection H1 as <- <- <-.
        rewrite S2 in H2. discriminate.
      * intros ? ? ? ? ? H1 H2. injection H1 as <- <- <-.
        rewrite S2 in H2. injection H2 as <- <-.
        split; intros Hb; eexists.
        -- rewrite (Hno Hb). reflexivity.
        -- rewrite (Hyes Hb). reflexivity.
  - rewrite R. simpl.
    eexists. split; [rewrite <- !app_assoc; reflexivity|].
    split; [intros d st' H; discriminate|]. split.
    + intros ? ? ? ? ? ? H1. discriminate.
    + intros ? ? ? ? ? H1. discriminate.
Qed.

Lemma fresh_clone_witness :
  (parseRepo "octocat/Hello-World" (boot empty) =
     (inr ("octocat", "Hello-World"), boot empty) /\
   detectServerless fatal_host (boot empty) = (inr false, after_detect fatal_host empty) /\
   resolveCacheDir fatal_host "octocat" "Hello-World" false (after_detect fatal_host empty) =
     (inr "/tmp/bugsmith/octocat-Hello-World",
      after_resolve fatal_host "octocat" "Hello-World" empty) /\
   files (after_resolve fatal_host "octocat" "Hello-World" empty)
     !! join fatal_host "/tmp/bugsmith/octocat-Hello-World" ".git" = None /\
   ~ blames_git "Git clone error: fatal: unable to access the remote" /\
   exists st',
     cloneRepo fatal_host "octocat/Hello-World" (boot empty) =
       (inl ("Failed to clone repository octocat/Hello-World: "
             +:+ "Git clone error: fatal: unable to access the remote"), st')) /\
  (detectServerless git_host (boot empty) = (inr false, after_detect git_host empty) /\
   resolveCacheDir git_host "octocat" "Hello-World" false (after_detect git_host empty) =
     (inr "/tmp/bugsmith/octocat-Hello-World",
      after_resolve git_host "octocat" "Hello-World" empty) /\
   files (after_resolve git_host "octocat" "Hello-World" empty)
     !! join git_host "/tmp/bugsmith/octocat-Hello-World" ".git" = None /\
   exists evs,
     trace (snd (cloneRepo git_host "octocat/Hello-World" (boot empty))) =
       trace (after_resolve git_host "octocat" "Hello-World" empty) ++ evs /\
     length (List.filter is_clone evs) = 1%nat).
Proof.
  assert (Hp : parseRepo "octocat/Hello-World" (boot empty) =
               (inr ("octocat", "Hello-World"), boot empty)) by reflexivity.
  split.
  - assert (Hd : detectServerless fatal_host (boot empty) =
                 (inr false, after_detect fatal_host empty)) by (vm_compute; reflexivity).
    assert (Hr : resolveCacheDir fatal_host "octocat" "Hello-World" false
                   (after_detect fatal_host empty) =
                 (inr "/tmp/bugsmith/octocat-Hello-World",
                  after_resolve fatal_host "octocat" "Hello-World" empty))
      by (vm_compute; reflexivity).
    assert (Hg : files (after_resolve fatal_host "octocat" "Hello-World" empty)
                   !! join fatal_host "/tmp/bugsmith/octocat-Hello-World" ".git" = None)
      by (vm_compute; reflexivity).
    assert (Hb : ~ blames_git "Git clone error: fatal: unable to access the remote").
    { intros [H1 _]. apply includes_spec in H1. vm_compute in H1. discriminate. }
    repeat (split; [assumption|]).
    destruct (fresh_clone fatal_host _ _ _ _ _ _ _ Hp Hd Hr Hg)
      as (before & evs & _ & _ & _ & _ & Hfatal & _).
    refine (proj1 (Hfatal "git version 2.43.0" EmptyString
                     (files (after_resolve fatal_host "octocat" "Hello-World" empty))
                     EmptyString "fatal: unable to access the remote"
                     (files (after_resolve fatal_host "octocat" "Hello-World" empty))
                     _ _ _ _ _) Hb).
    + vm_compute. reflexivity.
    + vm_compute. reflexivity.
    + apply includes_spec. vm_compute. reflexivity.
    + intros H. apply includes_spec in H. vm_compute in H. discriminate.
    + intros H. apply includes_spec in H. vm_compute in H. discriminate.
  - assert (Hd : detectServerless git_host (boot empty) =
                 (inr false, after_detect git_host empty)) by (vm_compute; reflexivity).
    assert (Hr : resolveCacheDir git_host "octocat" "Hello-World" false
                   (after_detect git_host empty) =
                 (inr "/tmp/bugsmith/octocat-Hello-World",
                  after_resolve git_host "octocat" "Hello-World" empty))
      by (vm_compute; reflexivity).
    assert (Hg : files (after_resolve git_host "octocat" "Hello-World" empty)
                   !! join git_host "/tmp/bugsmith/octocat-Hello-World" ".git" = None)
      by (vm_compute; reflexivity).
    repeat (split; [assumption|]).
    destruct (fresh_clone git_host _ _ _ _ _ _ _ Hp Hd Hr Hg)
      as (before & evs & _ & _ & E & Hok & _).
    exists evs. split; [exact E|].
    destruct (cloneRepo git_host "octocat/Hello-World" (boot empty)) as [[e|d] st'] eqn:Hc.
    + vm_compute in Hc. discriminate.
    + exact (proj2 (Hok d st' eq_refl)).
Defined.

(** C5 as stated fails: a clone that exits normally with [fatal:] on its
    diagnostic stream after the progress line [Cloning into] is taken for
    a success. *)
Lemma fatal_after_progress_succeeds :
  ~ (forall (h : Host) (repo owner name dir : string) (st0 st st1 : State)
            (o1 e1 out stderr : string) (fs1 fs2 : gmap string node),
       parseRepo repo st0 = (inr (owner, name), st0) ->
       detectServerless h st0 = (inr false, st) ->
       resolveCacheDir h owner name false st = (inr dir, st1) ->
       files st1 !! join h dir ".git" = None ->
       spawn h (S (length (trace st1))) "git --version" gitCheckOptions (files st1)
         = (Resolved o1 e1, fs1) ->
       spawn h (S (S (length (trace st1)))) (cloneCommand owner name dir) cloneOptions fs1
         = (Resolved out stderr, fs2) ->
       contains stderr "fatal:" ->
       exists e st', cloneRepo h repo st0 = (inl e, st')).
Proof.
  intros H.
  destruct (H fatal_progress_host "octocat/Hello-World" "octocat" "Hello-World"
              "/tmp/bugsmith/octocat-Hello-World"
              (boot empty)
              (after_detect fatal_progress_host empty)
              (after_resolve fatal_progress_host "octocat" "Hello-World" empty)
              "git version 2.43.0" EmptyString EmptyString
              "Cloning into 'x'... fatal: unable to checkout working tree"
              (files (after_resolve fatal_progress_host "octocat" "Hello-World" empty))
              (files (after_resolve fatal_progress_host "octocat" "Hello-World" empty)))
    as (e & st' & E); try (vm_compute; reflexivity).
  - apply includes_spec. vm_compute. reflexivity.
  - vm_compute in E. discriminate.
Qed.



(** C8.  Whenever the git branch reaches the clone attempt, it first runs the
    version query, and nothing before it in the run has spawned a clone.  If
    the query fails, the call fails with the git-missing error and no clone
    is spawned; the message surfaced to the caller names the repository
    identifier and embeds the text of that error.  If the query answers, the
    clone is the very next event. *)
Theorem tool_unavailable (h : Host) (repo owner name dir : string)
    (st0 st st1 st2 : State) :
  parseRepo repo st0 = (inr (owner, name), st0) ->
  detectServerless h st0 = (inr false, st) ->
  resolveCacheDir h owner name false st = (inr dir, st1) ->
  tryUpdate h repo dir st1 = (inr false, st2) ->
  let probe := EvExec "git --version" gitCheckOptions in
  (exists before,
     trace st2 = trace st0 ++ before /\ Forall (fun e => is_clone e = false) before) /\
  match spawn h (length (trace st2)) "git --version" gitCheckOptions (files st2) with
  | (Rejected _, fs') =>
      cloneRepo h repo st0 =
        (inl ("Failed to clone repository " +:+ repo +:+ ": " +:+ git_missing),
         {| files := fs';
            trace := trace st2 ++
              [probe;
               EvConsole ConsoleError
                 ["Error cloning repository " +:+ repo +:+ ":"; git_missing]] |})
  | (Resolved _ _, _) =>
      exists rest,
        trace (snd (cloneRepo h repo st0)) =
          trace st2 ++ probe :: EvExec (cloneCommand owner name dir) cloneOptions :: rest
  end.
Proof.
  intros Hp Hd Hr Hu probe. split.
  - destruct (fresh_steps_no_clone h repo owner name dir) as (E1 & E2 & E3).
    destruct (E1 st0) as (ev1 & T1 & F1). rewrite Hd in T1. simpl in T1.
    destruct (E2 st) as (ev2 & T2 & F2). rewrite Hr in T2. simpl in T2.
    destruct (E3 st1) as (ev3 & T3 & F3). rewrite Hu in T3. simpl in T3.
    exists (ev1 ++ ev2 ++ ev3).
    rewrite T3, T2, T1, <- !app_assoc. split; [reflexivity|].
    repeat (apply Forall_app; split); assumption.
  - rewrite (cloneRepo_git_stage _ _ _ _ _ _ Hp Hd).
    rewrite (gitClone_stage _ _ _ _ _ _ _ _ Hr Hu).
    pose proof (cloneAndReturn_run h repo owner name dir st2) as R. cbv zeta in R.
    destruct (spawn h (length (trace st2)) "git --version" gitCheckOptions (files st2))
      as [[o1 e1|m1] fs3].
    + destruct (spawn h (S (length (trace st2))) (cloneCommand owner name dir)
                  cloneOptions fs3) as [[o2 e2|m2] fs4].
      * destruct (stderrIsError e2).
        -- destruct R as (cause & _ & ->). simpl. rewrite <- !app_assoc. eexists. reflexivity.
        -- rewrite R. simpl. eexists. reflexivity.
      * destruct R as (cause & _ & ->). simpl. rewrite <- !app_assoc. eexists. reflexivity.
    + rewrite R. simpl. unfold record. simpl. rewrite <- !app_assoc. reflexivity.
Qed.

Lemma tool_unavailable_witness :
  parseRepo "octocat/Hello-World" (boot empty) =
    (inr ("octocat", "Hello-World"), boot empty) /\
  detectServerless vanishing_git_host (boot empty) =
    (inr false, after_detect vanishing_git_host empty) /\
  resolveCacheDir vanishing_git_host "octocat" "Hello-World" false
    (after_detect vanishing_git_host empty) =
    (inr "/tmp/bugsmith/octocat-Hello-World",
     after_resolve vanishing_git_host "octocat" "Hello-World" empty) /\
  tryUpdate vanishing_git_host "octocat/Hello-World" "/tmp/bugsmith/octocat-Hello-World"
    (after_resolve vanishing_git_host "octocat" "Hello-World" empty) =
    (inr false,
     after_update vanishing_git_host "octocat/Hello-World" "octocat" "Hello-World" empty) /\
  fst (cloneRepo vanishing_git_host "octocat/Hello-World" (boot empty)) =
    inl ("Failed to clone repository octocat/Hello-World: " +:+ git_missing).
Proof.
  assert (Hp : parseRepo "octocat/Hello-World" (boot empty) =
               (inr ("octocat", "Hello-World"), boot empty)) by reflexivity.
  assert (Hd : detectServerless vanishing_git_host (boot empty) =
               (inr false, after_detect vanishing_git_host empty))
    by (vm_compute; reflexivity).
  assert (Hr : resolveCacheDir vanishing_git_host "octocat" "Hello-World" false
                 (after_detect vanishing_git_host empty) =
               (inr "/tmp/bugsmith/octocat-Hello-World",
                after_resolve vanishing_git_host "octocat" "Hello-World" empty))
    by (vm_compute; reflexivity).
  assert (Hu : tryUpdate vanishing_git_host "octocat/Hello-World"
                 "/tmp/bugsmith/octocat-Hello-World"
                 (after_resolve vanishing_git_host "octocat" "Hello-World" empty) =
               (inr false,
                after_update vanishing_git_host "octocat/Hello-World" "octocat"
                  "Hello-World" empty))
    by (vm_compute; reflexivity).
  repeat (split; [assumption|]).
  pose proof (proj2 (tool_unavailable vanishing_git_host _ _ _ _ _ _ _ _ Hp Hd Hr Hu)) as T.
  change (spawn vanishing_git_host
            (length (trace (after_update vanishing_git_host "octocat/Hello-World"
                              "octocat" "Hello-World" empty)))
            "git --version" gitCheckOptions
            (files (after_update vanishing_git_host "octocat/Hello-World" "octocat"
                      "Hello-World" empty)))
    with (Rejected "Command failed: git --version",
          files (after_update vanishing_git_host "octocat/Hello-World" "octocat"
                   "Hello-World" empty)) in T.
  cbv beta iota in T. rewrite T. reflexivity.
Defined.

(** ** The error surfaced to the caller *)

Lemma throws_execAsync (h : Host) (cmd : string) (opts : ExecOptions) :
  throws (fun m => exists n fs fs', spawn h n cmd opts fs = (Rejected m, fs'))
    (execAsync h cmd opts).
Proof.
  intros st e st'. unfold execAsync.
  destruct (spawn h _ _ _ _) as [[out err|msg] fs'] eqn:S; [discriminate|].
  intros H. injection H as <- _. eauto.
Qed.

Lemma throws_rethrowClone (P : string -> Prop) (message : string) :
  P git_missing -> P message -> throws P (rethrowClone message).
Proof.
  intros H1 H2. unfold rethrowClone.
  destruct (Js.includes message "git" && _); apply throws_throw; assumption.
Qed.

Lemma throws_cloneAttempt (h : Host) (repo owner name dir : string) :
  throws (failure_cause h repo) (cloneAttempt h owner name dir).
Proof.
  unfold cloneAttempt.
  apply throws_try_catch with (Q := failure_cause h repo).
  - apply throws_bind.
    + apply throws_try_catch with (Q := fun _ => True).
      * intros st e st' _. exact I.
      * intros e _. apply throws_throw. unfold failure_cause. auto.
    + intros _. apply throws_bind.
      * eapply throws_weaken; [|apply throws_execAsync].
        intros e (n & fs & fs' & H). unfold failure_cause. eauto 12.
      * intros [out err]. destruct (stderrIsError err).
        -- apply throws_throw. unfold failure_cause. eauto 6.
        -- apply throws_ret.
  - intros e He. apply throws_rethrowClone; [|assumption].
    unfold failure_cause. auto.
Qed.

Lemma throws_tryUpdate (P : string -> Prop) (h : Host) (repo dir : string) :
  throws P (tryUpdate h repo dir).
Proof.
  intros st e st'. rewrite tryUpdate_run. cbv zeta.
  destruct (bool_decide _); [|discriminate].
  destruct (spawn h _ _ _ _) as [[out err|msg] fs']; discriminate.
Qed.

Lemma throws_detectServerless (P : string -> Prop) (h : Host) :
  throws P (detectServerless h).
Proof.
  intros st e st'. rewrite detectServerless_run.
  destruct (envServerless h); [discriminate|].
  destruct (spawn h _ _ _ _) as [[out err|msg] fs']; discriminate.
Qed.

Lemma throws_cloneRepoBody (h : Host) (repo : string) :
  throws (failure_cause h repo) (cloneRepoBody h repo).
Proof.
  unfold cloneRepoBody. apply throws_bind.
  - intros st e st' H. destruct (parseRepo_cases repo st) as [(o & n & E & _)|[E _]];
      rewrite E in H; [discriminate|]. injection H as <- _. left. reflexivity.
  - intros [owner name]. apply throws_bind; [apply throws_detectServerless|].
    intros [].
    + eapply throws_weaken; [|apply throws_serverlessClone].
      intros e He. right. left. assumption.
    + unfold gitClone. apply throws_bind.
      * eapply throws_weaken; [|apply throws_resolveCacheDir].
        intros e He. right. left. assumption.
      * intros dir. apply throws_bind; [apply throws_tryUpdate|].
        intros []; [apply throws_ret|].
        unfold cloneAndReturn.
        apply throws_bind; [apply throws_cloneAttempt|].
        intros _. apply throws_bind; [apply throws_console|].
        intros _. apply throws_ret.
Qed.

Lemma failure_cause_nonempty (h : Host) (repo cause : string) :
  host_messages_nonempty h -> failure_cause h repo cause -> cause <> EmptyString.
Proof.
  intros [Hs Hf] [->|[Hfs|[->|[(err & ->)|H]]]]; try discriminate.
  - destruct Hfs
      as [(n & ev & _ & H)|[(p & ->)|[(p & ->)|[(p & ->)|[(p & ->)|[(p & ->)|(p & ->)]]]]]];
      try discriminate.
    eapply Hf. eassumption.
  - destruct H as (n & o & nm & d & fs & fs' & H). eapply Hs. eassumption.
Qed.

(** C10.  Whatever the input and whatever goes wrong (an invalid identity, a
    file-system error, git missing, a failed clone), the error the caller
    receives is one error value whose message is [Failed to clone repository
    <identifier>: ] followed by the message of the cause; the failure modes
    differ in that text only.  (Were the message of the cause empty, which no
    error of the source and no error of Node is, [Unknown error] would stand
    in for it.) *)
Theorem failure_message (h : Host) (repo : string) (st : State)
    (e : string) (st' : State) :
  cloneRepo h repo st = (inl e, st') ->
  exists cause,
    cloneRepoBody h repo st = (inl cause, snd (cloneRepoBody h repo st)) /\
    failure_cause h repo cause /\
    e = "Failed to clone repository " +:+ repo +:+ ": " +:+ messageOrUnknown cause /\
    (cause <> EmptyString ->
     e = "Failed to clone repository " +:+ repo +:+ ": " +:+ cause) /\
    (host_messages_nonempty h ->
     e = "Failed to clone repository " +:+ repo +:+ ": " +:+ cause).
Proof.
  rewrite cloneRepo_outerCatch.
  destruct (cloneRepoBody h repo st) as [[cause|d] st1] eqn:E; simpl; [|discriminate].
  intros H. injection H as <- _. exists cause.
  pose proof (throws_cloneRepoBody _ _ _ _ _ E) as Hc.
  assert (Hn : cause <> EmptyString ->
               wrapError repo cause =
               "Failed to clone repository " +:+ repo +:+ ": " +:+ cause).
  { intros Hne. unfold wrapError, messageOrUnknown.
    apply truthy_true in Hne. rewrite Hne. reflexivity. }
  repeat split; try assumption.
  intros Hh. apply Hn. eapply failure_cause_nonempty; eassumption.
Qed.

Lemma failure_message_witness :
  cloneRepo git_host "a/b/c" (boot empty) =
    (inl ("Failed to clone repository a/b/c: " +:+ invalid_format "a/b/c"),
     snd (cloneRepo git_host "a/b/c" (boot empty))) /\
  exists cause,
    failure_cause git_host "a/b/c" cause /\
    "Failed to clone repository a/b/c: " +:+ invalid_format "a/b/c" =
    "Failed to clone repository " +:+ "a/b/c" +:+ ": " +:+ messageOrUnknown cause.
Proof.
  assert (H : cloneRepo git_host "a/b/c" (boot empty) =
              (inl ("Failed to clone repository a/b/c: " +:+ invalid_format "a/b/c"),
               snd (cloneRepo git_host "a/b/c" (boot empty))))
    by (vm_compute; reflexivity).
  split; [exact H|].
  destruct (failure_message _ _ _ _ _ H) as (cause & _ & Hc & He & _).
  exists cause. split; [exact Hc|exact He].
Defined.

(** * Some runs *)

Example marker_body_octocat :
  markerBody "octocat/Hello-World" =
    "{" +:+ Js.quote +:+ "repo" +:+ Js.quote +:+ ":" +:+ Js.quote
    +:+ "octocat/Hello-World" +:+ Js.quote
    +:+ "," +:+ Js.quote +:+ "cloned" +:+ Js.quote +:+ ":false"
    +:+ "," +:+ Js.quote +:+ "serverless" +:+ Js.quote +:+ ":true}".
Proof. reflexivity. Qed.

Example split_two : Js.split "/" "octocat/Hello-World" = ["octocat"; "Hello-World"].
Proof. reflexivity. Qed.

Example split_three : Js.split "/" "a/b/c" = ["a"; "b"; "c"].
Proof. reflexivity. Qed.

Example split_trailing : Js.split "/" "a/" = ["a"; EmptyString].
Proof. reflexivity. Qed.

Example split_empty : Js.split "/" EmptyString = [EmptyString].
Proof. reflexivity. Qed.

Example includes_is_case_sensitive :
  Js.includes "cloning into 'x'" "Cloning into" = false.
Proof. reflexivity. Qed.

Example upper_case_marker : stderrIsError "FATAL: could not read from remote" = true.
Proof. reflexivity. Qed.

Example progress_hides_marker :
  stderrIsError "Cloning into 'x'... fatal: unable to checkout working tree" = false.
Proof. reflexivity. Qed.

Example cache_dir_posix :
  cacheDir git_host "octocat" "Hello-World" false = "/tmp/bugsmith/octocat-Hello-World".
Proof. reflexivity. Qed.

Example cache_dir_windows :
  cacheDir windows_host "octocat" "Hello-World" false =
    "D:\scratch\bugsmith\octocat-Hello-World".
Proof. reflexivity. Qed.

(** The serverless run of the specification's example: the directory, the
    marker, and not one spawned process. *)
Example serverless_run :
  let r := cloneRepo vercel_host "octocat/Hello-World" (boot empty) in
  fst r = inr "/tmp/bugsmith/octocat-Hello-World" /\
  files (snd r) !! "/tmp/bugsmith/octocat-Hello-World/.bugsmith-serverless" =
    Some (File (markerBody "octocat/Hello-World")) /\
  trace (snd r) =
    [EvExists "/tmp/bugsmith"; EvMkdir "/tmp/bugsmith";
     EvExists "/tmp/bugsmith/octocat-Hello-World";
     EvMkdir "/tmp/bugsmith/octocat-Hello-World";
     EvWrite "/tmp/bugsmith/octocat-Hello-World/.bugsmith-serverless"
       (markerBody "octocat/Hello-World");
     EvConsole ConsoleLog
       ["Serverless mode: Created directory structure for octocat/Hello-World at /tmp/bugsmith/octocat-Hello-World"]].
Proof. vm_compute. auto. Qed.

(** A fresh clone on a machine with git. *)
Example git_run :
  let r := cloneRepo git_host "octocat/Hello-World" (boot empty) in
  fst r = inr "/tmp/bugsmith/octocat-Hello-World" /\
  trace (snd r) =
    [EvExec "git --version" probeOptions;
     EvExists "/tmp/bugsmith"; EvMkdir "/tmp/bugsmith";
     EvExists "/tmp/bugsmith/octocat-Hello-World/.git";
     EvExec "git --version" gitCheckOptions;
     EvExec (cloneCommand "octocat" "Hello-World" "/tmp/bugsmith/octocat-Hello-World")
       cloneOptions;
     EvConsole ConsoleLog
       ["Successfully cloned repository octocat/Hello-World to /tmp/bugsmith/octocat-Hello-World"]].
Proof. vm_compute. auto. Qed.

(** Three segments: rejected with nothing but the console touched. *)
Example invalid_run :
  cloneRepo git_host "a/b/c" (boot empty) =
    (inl "Failed to clone repository a/b/c: Invalid repository format: a/b/c. Expected format: owner/repo",
     {| files := empty;
        trace :=
          [EvConsole ConsoleError
             ["Error cloning repository a/b/c:";
              "Invalid repository format: a/b/c. Expected format: owner/repo"]] |}).
Proof. reflexivity. Qed.

(** A stale checkout whose pull fails: the clone is attempted into the
    directory that is still there, and its failure is what the caller
    sees. *)
Example stale_run :
  let r := cloneRepo stale_host "octocat/Hello-World" (boot stale_files) in
  fst r =
    inl "Failed to clone repository octocat/Hello-World: Command failed: git clone: destination path already exists" /\
  files (snd r) = stale_files.
Proof. split; vm_compute; reflexivity. Qed.

(** A repository that does not exist is reported as git missing: the
    message of the failed clone mentions [git] and [not found]. *)
Example not_found_reported_as_git_missing :
  rethrowClone
    "Command failed: git clone https://github.com/a/b.git: remote: Repository not found."
    (boot empty) = (inl git_missing, boot empty).
Proof. reflexivity. Qed.

(** A bare [fatal:] line on the diagnostic stream of a clone that exited
    normally makes the call fail. *)
Example fatal_run :
  fst (cloneRepo fatal_host "octocat/Hello-World" (boot empty)) =
    inl "Failed to clone repository octocat/Hello-World: Git clone error: fatal: unable to access the remote".
Proof. reflexivity. Qed.

(** The ancestors of the marker path on a POSIX host. *)
Example marker_ancestors :
  ancestors vercel_host "/tmp/bugsmith/octocat-Hello-World/.bugsmith-serverless" =
    ["/tmp/bugsmith/octocat-Hello-World"; "/tmp/bugsmith"; "/tmp"; "/"].
Proof. reflexivity. Qed.

(** [mkdirSync] with [recursive] creates the missing ancestors as well. *)
Example serverless_run_creates_ancestors :
  let r := cloneRepo vercel_host "octocat/Hello-World" (boot empty) in
  files (snd r) !! "/" = Some Dir /\
  files (snd r) !! "/tmp" = Some Dir /\
  files (snd r) !! "/tmp/bugsmith" = Some Dir /\
  files (snd r) !! "/tmp/bugsmith/octocat-Hello-World" = Some Dir.
Proof. repeat split; vm_compute; reflexivity. Qed.

(** A regular file where the namespace directory should be: [existsSync]
    answers [true], the directory is not created, and creating the
    directory of the repository below the file fails. *)
Example namespace_is_a_file :
  fst (cloneRepo vercel_host "octocat/Hello-World"
         (boot (<["/tmp/bugsmith" := File "x"]> (<["/tmp" := Dir]> (<["/" := Dir]> empty)))))
  = inl "Failed to clone repository octocat/Hello-World: ENOTDIR: not a directory, mkdir '/tmp/bugsmith/octocat-Hello-World'".
Proof. vm_compute. reflexivity. Qed.

(** A regular file where the directory of the repository should be: the
    marker cannot be written below it. *)
Example repository_is_a_file :
  fst (cloneRepo vercel_host "octocat/Hello-World"
         (boot (<["/tmp/bugsmith/octocat-Hello-World" := File "x"]>
                  (<["/tmp/bugsmith" := Dir]> (<["/tmp" := Dir]> (<["/" := Dir]> empty))))))
  = inl "Failed to clone repository octocat/Hello-World: ENOTDIR: not a directory, open '/tmp/bugsmith/octocat-Hello-World/.bugsmith-serverless'".
Proof. vm_compute. reflexivity. Qed.

(** A NUL byte in the name passes the parser and is refused by the
    validation of the path. *)
Example nul_byte_in_name :
  let repo := "a/b" +:+ String "000" EmptyString in
  fst (cloneRepo vercel_host repo (boot empty)) =
    inl ("Failed to clone repository " +:+ repo +:+ ": "
         +:+ "The argument 'path' must be a string, Uint8Array, or URL without null bytes. Received '/tmp/bugsmith/a-b"
         +:+ Js.backslash +:+ "x00'").
Proof. vm_compute. reflexivity. Qed.

(** An empty [TEMP] counts as no [TEMP]: the fourth heuristic holds and
    nothing is spawned. *)
Example empty_temp_is_serverless :
  detectServerless empty_temp_host (boot empty) = (inr true, boot empty).
Proof. reflexivity. Qed.

(** * Further properties of cloneRepo *)

(** ** Updating in place *)

(** X1.  In git mode, when the cache path holds checkout metadata and the
    pull exits normally, the call returns the cache directory right after
    logging the update: no version query and no clone is spawned, and the
    diagnostic stream of the pull is not inspected. *)
Theorem update_in_place (h : Host) (repo owner name dir : string)
    (st0 st st1 : State) (nd : node) (out err : string) (fs2 : gmap string node) :
  parseRepo repo st0 = (inr (owner, name), st0) ->
  detectServerless h st0 = (inr false, st) ->
  resolveCacheDir h owner name false st = (inr dir, st1) ->
  files st1 !! join h dir ".git" = Some nd ->
  spawn h (S (length (trace st1))) (pullCommand dir) pullOptions (files st1)
    = (Resolved out err, fs2) ->
  cloneRepo h repo st0 =
    (inr dir,
     {| files := fs2;
        trace := trace st1 ++
          [EvExists (join h dir ".git"); EvExec (pullCommand dir) pullOptions;
           EvConsole ConsoleLog ["Updated existing repository " +:+ repo]] |}).
Proof.
  intros Hp Hd Hr Hg Hs.
  rewrite (cloneRepo_git_stage _ _ _ _ _ _ Hp Hd).
  unfold gitClone, bind. rewrite Hr, tryUpdate_run. cbv zeta.
  rewrite bool_decide_eq_true_2; [|rewrite Hg; eauto].
  rewrite Hs. reflexivity.
Qed.

Lemma update_in_place_witness :
  parseRepo "octocat/Hello-World" (boot stale_files) =
    (inr ("octocat", "Hello-World"), boot stale_files) /\
  files (after_resolve git_host "octocat" "Hello-World" stale_files)
    !! join git_host "/tmp/bugsmith/octocat-Hello-World" ".git" = Some Dir /\
  fst (cloneRepo git_host "octocat/Hello-World" (boot stale_files)) =
    inr "/tmp/bugsmith/octocat-Hello-World".
Proof.
  assert (Hp : parseRepo "octocat/Hello-World" (boot stale_files) =
               (inr ("octocat", "Hello-World"), boot stale_files)) by reflexivity.
  assert (Hd : detectServerless git_host (boot stale_files) =
               (inr false, after_detect git_host stale_files))
    by (vm_compute; reflexivity).
  assert (Hr : resolveCacheDir git_host "octocat" "Hello-World" false
                 (after_detect git_host stale_files) =
               (inr "/tmp/bugsmith/octocat-Hello-World",
                after_resolve git_host "octocat" "Hello-World" stale_files))
    by (vm_compute; reflexivity).
  assert (Hg : files (after_resolve git_host "octocat" "Hello-World" stale_files)
                 !! join git_host "/tmp/bugsmith/octocat-Hello-World" ".git" = Some Dir)
    by (vm_compute; reflexivity).
  assert (Hs : spawn git_host
                 (S (length (trace (after_resolve git_host "octocat" "Hello-World"
                                      stale_files))))
                 (pullCommand "/tmp/bugsmith/octocat-Hello-World") pullOptions
                 (files (after_resolve git_host "octocat" "Hello-World" stale_files)) =
               (Resolved "git version 2.43.0" EmptyString, stale_files))
    by (vm_compute; reflexivity).
  split; [exact Hp|]. split; [exact Hg|].
  rewrite (update_in_place git_host _ _ _ _ _ _ _ _ _ _ _ Hp Hd Hr Hg Hs). reflexivity.
Defined.

(** ** How a failed clone is reported *)

(** X2.  When the clone process fails, the caller gets the message of that
    failure wrapped, unless the message mentions [git] together with
    [not found] or [not in PATH]: then the call reports that git is not
    installed, whatever the actual cause (a repository that does not exist,
    for one). *)
Theorem clone_failure_report (h : Host) (repo owner name dir : string)
    (st0 st st1 st2 : State) (o1 e1 message : string) (fs3 fs4 : gmap string node) :
  parseRepo repo st0 = (inr (owner, name), st0) ->
  detectServerless h st0 = (inr false, st) ->
  resolveCacheDir h owner name false st = (inr dir, st1) ->
  tryUpdate h repo dir st1 = (inr false, st2) ->
  spawn h (length (trace st2)) "git --version" gitCheckOptions (files st2)
    = (Resolved o1 e1, fs3) ->
  spawn h (S (length (trace st2))) (cloneCommand owner name dir) cloneOptions fs3
    = (Rejected message, fs4) ->
  (contains message "git" /\
   (contains message "not found" \/ contains message "not in PATH") ->
   fst (cloneRepo h repo st0) =
     inl ("Failed to clone repository " +:+ repo +:+ ": " +:+ git_missing)) /\
  (~ (contains message "git" /\
      (contains message "not found" \/ contains message "not in PATH")) ->
   fst (cloneRepo h repo st0) =
     inl ("Failed to clone repository " +:+ repo +:+ ": " +:+ messageOrUnknown message)).
Proof.
  intros Hp Hd Hr Hu S1 S2.
  rewrite (cloneRepo_git_stage _ _ _ _ _ _ Hp Hd).
  rewrite (gitClone_stage _ _ _ _ _ _ _ _ Hr Hu).
  unfold cloneAndReturn, bind. rewrite cloneAttempt_run, S1. cbv zeta. rewrite S2.
  match goal with |- context [rethrowClone message ?s] =>
    destruct (rethrowClone_spec message s) as [Hyes Hno] end.
  split; intros H.
  - rewrite (Hyes H). reflexivity.
  - rewrite (Hno H). reflexivity.
Qed.

Lemma clone_failure_report_witness :
  contains "Command failed: git clone: remote: Repository not found." "git" /\
  contains "Command failed: git clone: remote: Repository not found." "not found" /\
  fst (cloneRepo missing_repo_host "octocat/Hello-World" (boot empty)) =
    inl ("Failed to clone repository octocat/Hello-World: " +:+ git_missing).
Proof.
  assert (Hp : parseRepo "octocat/Hello-World" (boot empty) =
               (inr ("octocat", "Hello-World"), boot empty)) by reflexivity.
  assert (Hd : detectServerless missing_repo_host (boot empty) =
               (inr false, after_detect missing_repo_host empty))
    by (vm_compute; reflexivity).
  assert (Hr : resolveCacheDir missing_repo_host "octocat" "Hello-World" false
                 (after_detect missing_repo_host empty) =
               (inr "/tmp/bugsmith/octocat-Hello-World",
                after_resolve missing_repo_host "octocat" "Hello-World" empty))
    by (vm_compute; reflexivity).
  assert (Hu : tryUpdate missing_repo_host "octocat/Hello-World"
                 "/tmp/bugsmith/octocat-Hello-World"
                 (after_resolve missing_repo_host "octocat" "Hello-World" empty) =
               (inr false,
                after_update missing_repo_host "octocat/Hello-World" "octocat"
                  "Hello-World" empty))
    by (vm_compute; reflexivity).
  assert (H1 : contains "Command failed: git clone: remote: Repository not found." "git")
    by (apply includes_spec; reflexivity).
  assert (H2 : contains "Command failed: git clone: remote: Repository not found."
                 "not found")
    by (apply includes_spec; reflexivity).
  split; [exact H1|]. split; [exact H2|].
  refine (proj1 (clone_failure_report missing_repo_host _ _ _ _ _ _ _ _
                   "git version 2.43.0" EmptyString
                   "Command failed: git clone: remote: Repository not found."
                   (files (after_resolve missing_repo_host "octocat" "Hello-World" empty))
                   (files (after_resolve missing_repo_host "octocat" "Hello-World" empty))
                   Hp Hd Hr Hu _ _) (conj H1 (or_introl H2)));
    vm_compute; reflexivity.
Defined.

(** ** What a run does to the files *)

Section StepsLogic.

Context {A B : Type}.
Variable R : State -> State -> Prop.
Hypothesis R_same : forall st st', files st' = files st -> R st st'.
Hypothesis R_trans : forall a b c, R a b -> R b c -> R a c.

Lemma steps_ret (a : A) : steps R (ret a).
Proof. intros st. apply R_same. reflexivity. Qed.

Lemma steps_throw (e : string) : steps R (@throw A e).
Proof. intros st. apply R_same. reflexivity. Qed.

Lemma steps_bind (m : M A) (k : A -> M B) :
  steps R m -> (forall a, steps R (k a)) -> steps R (bind m k).
Proof.
  intros Hm Hk st. unfold bind. specialize (Hm st).
  destruct (m st) as [[e|a] st1]; simpl in *; [assumption|].
  eapply R_trans; [eassumption|]. apply Hk.
Qed.

Lemma steps_try_catch (m : M A) (handler : string -> M A) :
  steps R m -> (forall e, steps R (handler e)) -> steps R (try_catch m handler).
Proof.
  intros Hm Hk st. unfold try_catch. specialize (Hm st).
  destruct (m st) as [[e|a] st1]; simpl in *; [|assumption].
  eapply R_trans; [eassumption|]. apply Hk.
Qed.

Lemma steps_console (level : Console) (args : list string) :
  steps R (console level args).
Proof. intros st. apply R_same. reflexivity. Qed.

Lemma steps_existsSync (p : string) : steps R (existsSync p).
Proof. intros st. apply R_same. reflexivity. Qed.

Lemma steps_mkdirSync (h : Host) (p : string) :
  (forall st st',
     files st' = foldr make_dir (files st) (p :: ancestors h p) -> R st st') ->
  steps R (mkdirSync h p).
Proof.
  intros Hins st. destruct (mkdirSync h p st) as [[e|u] st'] eqn:E; simpl.
  - apply R_same. apply (mkdirSync_inl _ _ _ _ _ E).
  - apply Hins. apply mkdirSync_inr in E as [-> _]. reflexivity.
Qed.

Lemma steps_writeFileSync (h : Host) (p data : string) :
  (forall st st', files st' = <[p := File data]> (files st) -> R st st') ->
  steps R (writeFileSync h p data).
Proof.
  intros Hins st. destruct (writeFileSync h p data st) as [[e|u] st'] eqn:E; simpl.
  - apply R_same. apply (writeFileSync_inl _ _ _ _ _ _ E).
  - apply Hins. apply writeFileSync_inr in E as [-> _]. reflexivity.
Qed.

End StepsLogic.

Lemma keeps_paths_same (st st' : State) : files st' = files st -> keeps_paths st st'.
Proof. intros E p. rewrite E. auto. Qed.

Lemma keeps_paths_trans (a b c : State) :
  keeps_paths a b -> keeps_paths b c -> keeps_paths a c.
Proof. intros H1 H2 p Hp. auto. Qed.

Lemma keeps_paths_insert (p : string) (st st' : State) (nd : node) :
  files st' = <[p := nd]> (files st) -> keeps_paths st st'.
Proof.
  intros E q Hq. rewrite E. apply lookup_insert_is_Some.
  destruct (decide (p = q)); auto.
Qed.

Lemma keeps_paths_make_dirs (l : list string) (st st' : State) :
  files st' = foldr make_dir (files st) l -> keeps_paths st st'.
Proof.
  intros E q [nd Hq]. rewrite E, (make_dirs_keeps _ _ _ _ Hq). eauto.
Qed.

Lemma creates_same (P : string -> Prop) (S : list string) (st st' : State) :
  files st' = files st -> creates_dirs_only P S st st'.
Proof. intros E p _. left. rewrite E. reflexivity. Qed.

Lemma creates_trans (P : string -> Prop) (S : list string) (a b c : State) :
  creates_dirs_only P S a b -> creates_dirs_only P S b c -> creates_dirs_only P S a c.
Proof.
  intros H1 H2 p Hp. specialize (H1 p Hp). specialize (H2 p Hp).
  unfold created_among in *.
  destruct H1 as [E1|(N1 & D1 & I1)], H2 as [E2|(N2 & D2 & I2)].
  - left. congruence.
  - right. repeat split; congruence.
  - right. repeat split; congruence.
  - congruence.
Qed.

Lemma creates_make_dirs (P : string -> Prop) (S l : list string) (st st' : State) :
  (forall q, In q l -> In q S) ->
  files st' = foldr make_dir (files st) l -> creates_dirs_only P S st st'.
Proof.
  intros Hsub E p _. unfold created_among. rewrite E, make_dirs_lookup.
  destruct (files st !! p) as [nd|]; [left; reflexivity|].
  case_bool_decide as Hin; [|left; reflexivity].
  right. repeat split. apply Hsub. apply list_elem_of_In. exact Hin.
Qed.

Lemma creates_insert (P : string -> Prop) (S : list string) (q : string) (nd : node)
    (st st' : State) :
  ~ P q -> files st' = <[q := nd]> (files st) -> creates_dirs_only P S st st'.
Proof.
  intros Hq E p Hp. left. rewrite E. apply lookup_insert_ne. intros ->. auto.
Qed.

Lemma execAsync_creates (P : string -> Prop) (S : list string) (h : Host)
    (cmd : string) (opts : ExecOptions) :
  (forall p, P p -> processes_leave h p) ->
  steps (creates_dirs_only P S) (execAsync h cmd opts).
Proof.
  intros Hh st p Hp. left. unfold execAsync.
  specialize (Hh p Hp (length (trace st)) cmd opts (files st)).
  destruct (spawn h _ _ _ _) as [[out err|msg] fs']; simpl in *; assumption.
Qed.

Ltac steps_step Hsame Htrans :=
  first
    [ apply (steps_ret _ Hsame)
    | apply (steps_throw _ Hsame)
    | apply (steps_console _ Hsame)
    | apply (steps_existsSync _ Hsame)
    | apply (steps_bind _ Htrans); [|intros ?]
    | apply (steps_try_catch _ Htrans); [|intros ?]
    | match goal with
      | |- steps _ (if ?b then _ else _) => destruct b
      | |- steps _ (match ?x with (_, _) => _ end) => destruct x
      end ].

Lemma serverlessClone_keeps_paths (h : Host) (repo owner name : string) :
  steps keeps_paths (serverlessClone h repo owner name).
Proof.
  unfold serverlessClone, resolveCacheDir, ensureDir.
  repeat first
    [ steps_step keeps_paths_same keeps_paths_trans
    | apply (steps_mkdirSync _ keeps_paths_same); intros ? ?; apply keeps_paths_make_dirs
    | apply (steps_writeFileSync _ keeps_paths_same); intros ? ?; apply keeps_paths_insert ].
Qed.

Lemma resolveCacheDir_creates (P : string -> Prop) (h : Host) (owner name : string) :
  steps
    (creates_dirs_only P
       ((join h "/tmp" "bugsmith" :: ancestors h (join h "/tmp" "bugsmith")) ++
        (cacheDir h owner name true :: ancestors h (cacheDir h owner name true))))
    (resolveCacheDir h owner name true).
Proof.
  unfold resolveCacheDir, ensureDir, cacheDir.
  repeat first
    [ steps_step (creates_same P
                    ((join h "/tmp" "bugsmith" :: ancestors h (join h "/tmp" "bugsmith")) ++
                     (join h (join h "/tmp" "bugsmith") (repoDirName owner name)
                      :: ancestors h
                           (join h (join h "/tmp" "bugsmith") (repoDirName owner name)))))
                 (creates_trans P
                    ((join h "/tmp" "bugsmith" :: ancestors h (join h "/tmp" "bugsmith")) ++
                     (join h (join h "/tmp" "bugsmith") (repoDirName owner name)
                      :: ancestors h
                           (join h (join h "/tmp" "bugsmith") (repoDirName owner name)))))
    | apply (steps_mkdirSync _ (creates_same _ _)); intros ? ?;
      apply creates_make_dirs; intros q Hq; apply in_or_app; auto ].
Qed.

Lemma serverlessClone_creates (h : Host) (repo owner name : string) :
  steps
    (creates_dirs_only
       (fun p => p <> join h (cacheDir h owner name true) ".bugsmith-serverless")
       ((join h "/tmp" "bugsmith" :: ancestors h (join h "/tmp" "bugsmith")) ++
        (cacheDir h owner name true :: ancestors h (cacheDir h owner name true))))
    (serverlessClone h repo owner name).
Proof.
  intros st. unfold serverlessClone, bind at 1.
  pose proof (resolveCacheDir_creates
                (fun p => p <> join h (cacheDir h owner name true) ".bugsmith-serverless")
                h owner name st) as H1.
  destruct (resolveCacheDir h owner name true st) as [[e|d] st1] eqn:E;
    cbn [snd] in H1; [exact H1|].
  apply resolveCacheDir_path in E. subst d.
  eapply creates_trans; [exact H1|]. clear H1.
  revert st1. change (steps
    (creates_dirs_only
       (fun p => p <> join h (cacheDir h owner name true) ".bugsmith-serverless")
       ((join h "/tmp" "bugsmith" :: ancestors h (join h "/tmp" "bugsmith")) ++
        (cacheDir h owner name true :: ancestors h (cacheDir h owner name true))))
    (let* _ := writeFileSync h (join h (cacheDir h owner name true) ".bugsmith-serverless")
                 (markerBody repo) in
     let* _ := console ConsoleLog
       ["Serverless mode: Created directory structure for " +:+ repo +:+ " at "
        +:+ cacheDir h owner name true] in
     ret (cacheDir h owner name true))).
  repeat first
    [ steps_step (creates_same
                    (fun p => p <> join h (cacheDir h owner name true) ".bugsmith-serverless")
                    ((join h "/tmp" "bugsmith" :: ancestors h (join h "/tmp" "bugsmith")) ++
                     (cacheDir h owner name true
                      :: ancestors h (cacheDir h owner name true))))
                 (creates_trans
                    (fun p => p <> join h (cacheDir h owner name true) ".bugsmith-serverless")
                    ((join h "/tmp" "bugsmith" :: ancestors h (join h "/tmp" "bugsmith")) ++
                     (cacheDir h owner name true
                      :: ancestors h (cacheDir h owner name true))))
    | apply (steps_writeFileSync _ (creates_same _ _)); intros ? ?;
      apply creates_insert; intros Hne; apply Hne; reflexivity ].
Qed.

(** X3.  In serverless mode, whether the call returns or throws, every path
    other than the marker file is afterwards as it was before, with one
    exception: the namespace directory, the directory of the repository and
    the ancestors of the two may have been created, as directories, where
    nothing was.  No entry that existed, the marker apart, is altered or
    removed. *)
Theorem serverless_footprint (h : Host) (repo owner name : string) (st0 st : State) :
  parseRepo repo st0 = (inr (owner, name), st0) ->
  detectServerless h st0 = (inr true, st) ->
  let bugs := join h "/tmp" "bugsmith" in
  let dir := cacheDir h owner name true in
  let marker := join h dir ".bugsmith-serverless" in
  forall p,
    p <> marker ->
    files (snd (cloneRepo h repo st0)) !! p = files st !! p \/
    (files st !! p = None /\
     files (snd (cloneRepo h repo st0)) !! p = Some Dir /\
     In p ((bugs :: ancestors h bugs) ++ (dir :: ancestors h dir))).
Proof.
  intros Hp Hd bugs dir marker p Hne.
  rewrite (cloneRepo_serverless_stage _ _ _ _ _ _ Hp Hd).
  pose proof (serverlessClone_creates h repo owner name st p Hne) as H.
  destruct (serverlessClone h repo owner name st) as [[e|d] st1]; exact H.
Qed.

Lemma serverless_footprint_witness :
  parseRepo "octocat/Hello-World" (boot stale_files) =
    (inr ("octocat", "Hello-World"), boot stale_files) /\
  detectServerless vercel_host (boot stale_files) = (inr true, boot stale_files) /\
  files (snd (cloneRepo vercel_host "octocat/Hello-World" (boot stale_files)))
    !! "/tmp/bugsmith/octocat-Hello-World/.git" = Some Dir /\
  files (snd (cloneRepo vercel_host "octocat/Hello-World" (boot empty))) !! "/tmp"
    = Some Dir /\
  files (snd (cloneRepo vercel_host "octocat/Hello-World" (boot empty))) !! "/home"
    = None.
Proof.
  assert (Hp : forall fs, parseRepo "octocat/Hello-World" (boot fs) =
               (inr ("octocat", "Hello-World"), boot fs)) by reflexivity.
  assert (Hd : forall fs, detectServerless vercel_host (boot fs) = (inr true, boot fs))
    by reflexivity.
  split; [apply Hp|]. split; [apply Hd|]. split; [|split].
  - destruct (serverless_footprint vercel_host _ _ _ _ _ (Hp stale_files) (Hd stale_files)
                "/tmp/bugsmith/octocat-Hello-World/.git") as [E|(E & _)].
    + vm_compute. discriminate.
    + rewrite E. reflexivity.
    + vm_compute in E. discriminate.
  - destruct (serverless_footprint vercel_host _ _ _ _ _ (Hp empty) (Hd empty) "/tmp")
      as [E|(_ & E & _)].
    + vm_compute. discriminate.
    + vm_compute in E. discriminate.
    + exact E.
  - destruct (serverless_footprint vercel_host _ _ _ _ _ (Hp empty) (Hd empty) "/home")
      as [E|(_ & _ & E)].
    + vm_compute. discriminate.
    + rewrite E. reflexivity.
    + exfalso. vm_compute in E. intuition discriminate.
Defined.

Lemma execAsync_keeps_paths (h : Host) (cmd : string) (opts : ExecOptions) :
  processes_keep_paths h -> steps keeps_paths (execAsync h cmd opts).
Proof.
  intros Hh st p Hp. unfold execAsync.
  specialize (Hh (length (trace st)) cmd opts (files st) p Hp).
  destruct (spawn h _ _ _ _) as [[out err|msg] fs']; simpl in *; assumption.
Qed.

(** X4.  On a host whose processes remove no path, the call removes none
    either, in any mode and whether it returns or throws: every path present
    before the call is present after it. *)
Theorem call_keeps_paths (h : Host) (repo : string) (st : State) (p : string) :
  processes_keep_paths h ->
  is_Some (files st !! p) ->
  is_Some (files (snd (cloneRepo h repo st)) !! p).
Proof.
  intros Hh. revert p. change (keeps_paths st (snd (cloneRepo h repo st))).
  revert st. change (steps keeps_paths (cloneRepo h repo)).
  unfold cloneRepo, cloneRepoBody, parseRepo, detectServerless, serverlessClone,
    gitClone, resolveCacheDir, ensureDir, tryUpdate, cloneAndReturn, cloneAttempt,
    rethrowClone.
  repeat first
    [ steps_step keeps_paths_same keeps_paths_trans
    | apply (steps_mkdirSync _ keeps_paths_same); intros ? ?; apply keeps_paths_make_dirs
    | apply (steps_writeFileSync _ keeps_paths_same); intros ? ?; apply keeps_paths_insert
    | apply execAsync_keeps_paths; assumption ].
Qed.

Lemma call_keeps_paths_witness :
  processes_keep_paths git_host /\
  is_Some (files (snd (cloneRepo git_host "octocat/Hello-World" (boot stale_files)))
             !! "/tmp/bugsmith/octocat-Hello-World").
Proof.
  assert (Hh : processes_keep_paths git_host).
  { intros n cmd opts fs p Hp. simpl. unfold git_spawn.
    destruct (Js.startsWith cmd "git clone"); simpl; [|exact Hp].
    apply lookup_insert_is_Some.
    destruct (decide ("/tmp/bugsmith/octocat-Hello-World/.git" = p)); [auto|].
    right. split; [assumption|].
    apply lookup_insert_is_Some.
    destruct (decide ("/tmp/bugsmith/octocat-Hello-World" = p)); auto. }
  split; [exact Hh|].
  apply (call_keeps_paths git_host _ _ _ Hh). vm_compute. eauto.
Defined.

Lemma gitClone_creates (h : Host) (repo owner name : string) :
  steps
    (creates_dirs_only (processes_leave h)
       (join h (gitTempBase h) "bugsmith"
        :: ancestors h (join h (gitTempBase h) "bugsmith")))
    (gitClone h repo owner name).
Proof.
  unfold gitClone, resolveCacheDir, ensureDir, tryUpdate, cloneAndReturn,
    cloneAttempt, rethrowClone.
  repeat first
    [ steps_step (creates_same (processes_leave h)
                    (join h (gitTempBase h) "bugsmith"
                     :: ancestors h (join h (gitTempBase h) "bugsmith")))
                 (creates_trans (processes_leave h)
                    (join h (gitTempBase h) "bugsmith"
                     :: ancestors h (join h (gitTempBase h) "bugsmith")))
    | apply (steps_mkdirSync _ (creates_same _ _)); intros ? ?;
      apply creates_make_dirs; intros q Hq; exact Hq
    | apply execAsync_creates; intros ? Hp; exact Hp ].
Qed.

(** X5.  In git mode the call itself writes no file and asks for no
    directory other than the namespace directory [<base>/bugsmith], which
    [mkdirSync] creates together with its missing ancestors: a path that the
    spawned processes leave alone is afterwards as it was before, unless it
    is the namespace directory or one of its ancestors, was absent, and is
    now a directory.  The directory of the repository is left to git. *)
Theorem git_mode_footprint (h : Host) (repo owner name : string) (st0 st : State) :
  parseRepo repo st0 = (inr (owner, name), st0) ->
  detectServerless h st0 = (inr false, st) ->
  let bugs := join h (gitTempBase h) "bugsmith" in
  (exists evs,
     trace (snd (cloneRepo h repo st0)) = trace st ++ evs /\
     Forall (git_footprint h) evs) /\
  (forall p,
     processes_leave h p ->
     files (snd (cloneRepo h repo st0)) !! p = files st !! p \/
     (files st !! p = None /\
      files (snd (cloneRepo h repo st0)) !! p = Some Dir /\
      In p (bugs :: ancestors h bugs))).
Proof.
  intros Hp Hd bugs. rewrite (cloneRepo_git_stage _ _ _ _ _ _ Hp Hd). split.
  - assert (E : emits (git_footprint h) (gitClone h repo owner name)).
    { unfold gitClone, resolveCacheDir, ensureDir, tryUpdate, cloneAndReturn,
        cloneAttempt, rethrowClone.
      emits_auto; simpl; auto. }
    destruct (E st) as (evs & Ht & Hf).
    destruct (gitClone h repo owner name st) as [[e|d] st1]; simpl in *.
    + exists (evs ++ [EvConsole ConsoleError ["Error cloning repository " +:+ repo +:+ ":"; e]]).
      rewrite Ht, app_assoc. split; [reflexivity|].
      apply Forall_app. split; [assumption|]. repeat constructor.
    + exists evs. auto.
  - intros p Hleave.
    pose proof (gitClone_creates h repo owner name st p Hleave) as H.
    destruct (gitClone h repo owner name st) as [[e|d] st1]; exact H.
Qed.

Lemma git_mode_footprint_witness :
  parseRepo "octocat/Hello-World" (boot empty) =
    (inr ("octocat", "Hello-World"), boot empty) /\
  detectServerless missing_repo_host (boot empty) =
    (inr false, after_detect missing_repo_host empty) /\
  processes_leave missing_repo_host "/tmp/bugsmith" /\
  processes_leave missing_repo_host "/tmp/bugsmith/octocat-Hello-World" /\
  files (snd (cloneRepo missing_repo_host "octocat/Hello-World" (boot empty)))
    !! "/tmp/bugsmith" = Some Dir /\
  files (snd (cloneRepo missing_repo_host "octocat/Hello-World" (boot empty)))
    !! "/tmp/bugsmith/octocat-Hello-World" = None.
Proof.
  assert (Hp : parseRepo "octocat/Hello-World" (boot empty) =
               (inr ("octocat", "Hello-World"), boot empty)) by reflexivity.
  assert (Hd : detectServerless missing_repo_host (boot empty) =
               (inr false, after_detect missing_repo_host empty))
    by (vm_compute; reflexivity).
  assert (Hl : forall p, processes_leave missing_repo_host p).
  { intros p n cmd opts fs. simpl.
    destruct (Js.startsWith cmd "git clone"); reflexivity. }
  repeat (split; [first [assumption | apply Hl]|]).
  destruct (git_mode_footprint missing_repo_host _ _ _ _ _ Hp Hd) as [_ Hfiles]. split.
  - destruct (Hfiles _ (Hl "/tmp/bugsmith")) as [E|(_ & E & _)]; [|exact E].
    vm_compute in E. discriminate.
  - destruct (Hfiles _ (Hl "/tmp/bugsmith/octocat-Hello-World")) as [E|(_ & _ & E)].
    + rewrite E. reflexivity.
    + exfalso. vm_compute in E. intuition discriminate.
Defined.

(** ** Running the serverless branch again *)

Lemma parseRepo_ok (repo owner name : string) (st : State) :
  Js.split "/" repo = [owner; name] ->
  owner <> EmptyString -> name <> EmptyString ->
  parseRepo repo st = (inr (owner, name), st).
Proof.
  intros Hs Ho Hn. unfold parseRepo. rewrite Hs. simpl.
  apply truthy_true in Ho, Hn. rewrite Ho, Hn. reflexivity.
Qed.

Lemma resolveCacheDir_present (h : Host) (owner name : string) (st : State) :
  is_Some (files st !! join h "/tmp" "bugsmith") ->
  is_Some (files st !! cacheDir h owner name true) ->
  exists st1,
    resolveCacheDir h owner name true st = (inr (cacheDir h owner name true), st1) /\
    files st1 = files st.
Proof.
  intros Ha Hb. unfold resolveCacheDir, cacheDir, bind, ret in *.
  rewrite (ensureDir_present h _ st Ha).
  rewrite (ensureDir_present h _ (record _ st) Hb).
  eexists. split; reflexivity.
Qed.

Lemma serverlessClone_rerun (h : Host) (repo owner name dir : string) (st st1 : State) :
  (forall n e, fs_fault h n e = None) ->
  serverlessClone h repo owner name st = (inr dir, st1) ->
  exists st2,
    serverlessClone h repo owner name st1 = (inr dir, st2) /\ files st2 = files st1.
Proof.
  intros Hf H.
  destruct (serverlessClone_ok _ _ _ _ _ _ _ H) as [Hdir Hmarker].
  apply serverlessClone_inr in H as (_ & sta & Hr & Hfiles & Hn & Hparent & Hnd & Hanc).
  subst dir.
  set (marker := join h (cacheDir h owner name true) ".bugsmith-serverless") in *.
  assert (Hne : dirname h marker <> marker).
  { intros E. rewrite E in Hparent. auto. }
  apply resolveCacheDir_serverless_present in Hr as [Ha Hb].
  assert (Hkeep : forall q, is_Some (files sta !! q) -> is_Some (files st1 !! q)).
  { intros q Hq. rewrite Hfiles. apply lookup_insert_is_Some.
    destruct (decide (marker = q)); auto. }
  destruct (resolveCacheDir_present h owner name st1 (Hkeep _ Ha) (Hkeep _ Hb))
    as (stb & Er & Efiles).
  unfold serverlessClone, bind. rewrite Er. fold marker.
  rewrite writeFileSync_returns.
  - unfold console, ret, record. eexists. split; [reflexivity|].
    simpl. rewrite Efiles. apply insert_id. exact Hmarker.
  - exact Hn.
  - apply Hf.
  - rewrite Efiles, Hfiles.
    rewrite <- Hanc. apply existsb_is_file_ext_in.
    intros q Hq. unfold is_file. rewrite lookup_insert_ne; [reflexivity|].
    intros E. exact (ancestors_proper _ _ _ Hq (eq_sym E)).
  - rewrite Efiles, Hfiles, lookup_insert_ne; [exact Hparent|]. auto.
  - rewrite Efiles, Hmarker. discriminate.
Qed.

(** X6.  The serverless branch is idempotent on the file system: when the
    environment heuristics classify the host as serverless and the operating
    system refuses nothing, a call that returned can be repeated, returns the
    same directory and leaves every file as the first call left it. *)
Theorem serverless_rerun (h : Host) (repo dir : string) (st st1 : State) :
  envServerless h = true ->
  (forall n e, fs_fault h n e = None) ->
  cloneRepo h repo st = (inr dir, st1) ->
  exists st2, cloneRepo h repo st1 = (inr dir, st2) /\ files st2 = files st1.
Proof.
  intros He Hf H.
  assert (Hd : forall s, detectServerless h s = (inr true, s)).
  { intros s. rewrite detectServerless_run, He. reflexivity. }
  destruct (parseRepo_cases repo st) as [(o & n & Hp & Hs & Ho & Hn) | [Hp _]].
  - rewrite (cloneRepo_serverless_stage _ _ _ _ _ _ Hp (Hd st)) in H.
    destruct (serverlessClone h repo o n st) as [[e|d] sta] eqn:E; simpl in H;
      [discriminate|].
    injection H as -> ->.
    destruct (serverlessClone_rerun _ _ _ _ _ _ _ Hf E) as (st2 & E2 & Efiles).
    rewrite (cloneRepo_serverless_stage _ _ _ _ _ st1
               (parseRepo_ok repo o n st1 Hs Ho Hn) (Hd st1)).
    rewrite E2. simpl. eauto.
  - rewrite cloneRepo_outerCatch in H. unfold cloneRepoBody, bind in H.
    rewrite Hp in H. discriminate.
Qed.

Lemma serverless_rerun_witness :
  envServerless vercel_host = true /\
  cloneRepo vercel_host "octocat/Hello-World" (boot empty) =
    (inr "/tmp/bugsmith/octocat-Hello-World",
     snd (cloneRepo vercel_host "octocat/Hello-World" (boot empty))) /\
  exists st2,
    cloneRepo vercel_host "octocat/Hello-World"
      (snd (cloneRepo vercel_host "octocat/Hello-World" (boot empty))) =
      (inr "/tmp/bugsmith/octocat-Hello-World", st2) /\
    files st2 = files (snd (cloneRepo vercel_host "octocat/Hello-World" (boot empty))).
Proof.
  assert (He : envServerless vercel_host = true) by reflexivity.
  assert (H : cloneRepo vercel_host "octocat/Hello-World" (boot empty) =
              (inr "/tmp/bugsmith/octocat-Hello-World",
               snd (cloneRepo vercel_host "octocat/Hello-World" (boot empty))))
    by (vm_compute; reflexivity).
  split; [exact He|]. split; [exact H|].
  exact (serverless_rerun vercel_host _ _ _ _ He (fun _ _ => eq_refl) H).
Defined.

(** ** The directory a call returns *)

Lemma gitClone_path (h : Host) (repo owner name dir : string) (st st' : State) :
  gitClone h repo owner name st = (inr dir, st') -> dir = cacheDir h owner name false.
Proof.
  unfold gitClone, bind.
  destruct (resolveCacheDir h owner name false st) as [[e|d] st1] eqn:Er; [discriminate|].
  apply resolveCacheDir_path in Er. subst d.
  destruct (tryUpdate h repo _ st1) as [[e|[]] st2]; [discriminate| |].
  - intros H. injection H as <- _. reflexivity.
  - unfold cloneAndReturn, bind, console, ret.
    destruct (cloneAttempt h owner name _ st2) as [[e|[]] st3]; [discriminate|].
    intros H. injection H as <- _. reflexivity.
Qed.

(** X7.  A call that returns gives back the cache directory of the parsed
    identity, [join(join(base, "bugsmith"), owner-name)]; on a host that is
    not Windows the base is [/tmp] in either mode, whatever [TEMP] and [TMP]
    hold. *)
Theorem returned_path (h : Host) (repo dir : string) (st st' : State) :
  cloneRepo h repo st = (inr dir, st') ->
  exists owner name,
    repo = owner +:+ "/" +:+ name /\
    owner <> EmptyString /\ name <> EmptyString /\
    (dir = cacheDir h owner name true \/ dir = cacheDir h owner name false) /\
    (platform h <> "win32" ->
     dir = join h (join h "/tmp" "bugsmith") (owner +:+ "-" +:+ name)).
Proof.
  rewrite cloneRepo_outerCatch. unfold cloneRepoBody, bind.
  destruct (parseRepo repo st) as [[e|[owner name]] st0] eqn:Hp; [discriminate|].
  destruct (parseRepo_inr _ _ _ _ _ Hp) as (-> & _ & Ho & Hn & Hrepo & _).
  destruct (detectServerless h st) as [[e|b] st1]; [discriminate|].
  intros H. exists owner, name.
  assert (Hdir : dir = cacheDir h owner name b).
  { destruct b.
    - destruct (serverlessClone h repo owner name st1) as [[e|d] st2] eqn:E;
        simpl in H; [discriminate|].
      injection H as <- _. apply (serverlessClone_ok _ _ _ _ _ _ _ E).
    - destruct (gitClone h repo owner name st1) as [[e|d] st2] eqn:E;
        simpl in H; [discriminate|].
      injection H as <- _. apply (gitClone_path _ _ _ _ _ _ _ E). }
  repeat split; try assumption.
  - destruct b; auto.
  - intros Hw. rewrite Hdir. unfold cacheDir, gitTempBase, repoDirName.
    rewrite (bool_decide_eq_false_2 _ Hw). destruct b; reflexivity.
Qed.

Lemma returned_path_witness :
  cloneRepo git_host "octocat/Hello-World" (boot empty) =
    (inr "/tmp/bugsmith/octocat-Hello-World",
     snd (cloneRepo git_host "octocat/Hello-World" (boot empty))) /\
  exists owner name,
    "octocat/Hello-World" = owner +:+ "/" +:+ name /\
    "/tmp/bugsmith/octocat-Hello-World" =
      join git_host (join git_host "/tmp" "bugsmith") (owner +:+ "-" +:+ name).
Proof.
  assert (H : cloneRepo git_host "octocat/Hello-World" (boot empty) =
              (inr "/tmp/bugsmith/octocat-Hello-World",
               snd (cloneRepo git_host "octocat/Hello-World" (boot empty))))
    by (vm_compute; reflexivity).
  split; [exact H|].
  destruct (returned_path git_host _ _ _ _ H) as (o & n & Hr & _ & _ & _ & Hd).
  exists o, n. split; [exact Hr|]. apply Hd. vm_compute. discriminate.
Defined.

(** ** The name of the cache directory *)

Lemma string_app_inv_head (s t u : string) : s +:+ t = s +:+ u -> t = u.
Proof.
  induction s as [|c s IH]; [auto|].
  rewrite !string_app_cons. intros H. injection H as H. auto.
Qed.

Lemma has_char_app (c : ascii) (s t : string) :
  Js.has_char c (s +:+ t) = Js.has_char c s || Js.has_char c t.
Proof.
  induction s as [|d s IH]; [reflexivity|].
  rewrite string_app_cons. simpl. rewrite IH, orb_assoc. reflexivity.
Qed.

Lemma parseRepo_accepts (owner name : string) (st : State) :
  owner <> EmptyString -> name <> EmptyString ->
  no_slash owner -> no_slash name ->
  parseRepo (owner +:+ "/" +:+ name) st = (inr (owner, name), st).
Proof.
  intros Ho Hn Hso Hsn. apply parseRepo_ok; try assumption.
  apply split_two_iff. auto.
Qed.

(** X8.  The directory name [owner-name] does not tell the owner from the
    name: the valid and distinct identifiers [a-b/c] and [a/b-c] are
    remote repositories with different URLs and get the same cache directory,
    in either mode. *)
Theorem cache_dir_collision (h : Host) (a b c : string) (flag : bool) (st : State) :
  a <> EmptyString -> c <> EmptyString ->
  no_slash a -> no_slash b -> no_slash c ->
  let owner1 := a +:+ "-" +:+ b in
  let name2 := b +:+ "-" +:+ c in
  parseRepo (owner1 +:+ "/" +:+ c) st = (inr (owner1, c), st) /\
  parseRepo (a +:+ "/" +:+ name2) st = (inr (a, name2), st) /\
  owner1 +:+ "/" +:+ c <> a +:+ "/" +:+ name2 /\
  repoUrl owner1 c <> repoUrl a name2 /\
  cacheDir h owner1 c flag = cacheDir h a name2 flag.
Proof.
  intros Ha Hc Hsa Hsb Hsc owner1 name2. subst owner1 name2.
  unfold no_slash in *.
  split; [|split; [|split; [|split]]].
  - apply parseRepo_accepts; try assumption.
    + destruct a; [congruence|discriminate].
    + unfold no_slash. rewrite !has_char_app, Hsa, Hsb. reflexivity.
  - apply parseRepo_accepts; try assumption.
    + destruct b; discriminate.
    + unfold no_slash. rewrite !has_char_app, Hsb, Hsc. reflexivity.
  - rewrite !string_app_assoc. intros H.
    apply string_app_inv_head in H. discriminate.
  - unfold repoUrl. rewrite !string_app_assoc. intros H.
    do 2 apply string_app_inv_head in H. discriminate.
  - unfold cacheDir, repoDirName. rewrite !string_app_assoc. reflexivity.
Qed.

Lemma cache_dir_collision_witness :
  cacheDir git_host ("my" +:+ "-" +:+ "org") "app" false =
  cacheDir git_host "my" ("org" +:+ "-" +:+ "app") false.
Proof.
  refine (proj2 (proj2 (proj2 (proj2
    (cache_dir_collision git_host "my" "org" "app" false (boot empty) _ _ _ _ _)))));
    first [discriminate | reflexivity].
Defined.

(** X9.  Owners without a hyphen do not collide: for such owners the
    directory name determines the owner and the name. *)
Theorem dir_name_injective (owner name owner' name' : string) :
  no_hyphen owner -> no_hyphen owner' ->
  repoDirName owner name = repoDirName owner' name' ->
  owner = owner' /\ name = name'.
Proof.
  unfold no_hyphen, repoDirName. intros Ho Ho' H.
  assert (Hs : Js.split "-" (owner +:+ String "-" name) =
               Js.split "-" (owner' +:+ String "-" name')).
  { change (String "-" name) with ("-" +:+ name).
    change (String "-" name') with ("-" +:+ name'). rewrite H. reflexivity. }
  rewrite (split_at_sep _ _ _ Ho), (split_at_sep _ _ _ Ho') in Hs.
  injection Hs as Hown _. subst owner'. split; [reflexivity|].
  apply string_app_inv_head in H. injection H as H. exact H.
Qed.

Lemma dir_name_injective_witness :
  no_hyphen "octocat" /\
  repoDirName "octocat" "Hello-World" = repoDirName "octocat" "Hello-World" /\
  "Hello-World" = "Hello-World".
Proof.
  assert (H : no_hyphen "octocat") by reflexivity.
  split; [exact H|]. split; [reflexivity|].
  exact (proj2 (dir_name_injective "octocat" "Hello-World" "octocat" "Hello-World"
                  H H eq_refl)).
Defined.

(** ** How many processes a call spawns *)

Lemma count_events_app (f : Event -> bool) (l1 l2 : list Event) :
  count_events f (l1 ++ l2) = count_events f l1 + count_events f l2.
Proof. unfold count_events. rewrite List.filter_app, length_app. reflexivity. Qed.

Section CountLogic.

Context {A B : Type}.
Variable f : Event -> bool.

Lemma at_most_ret (a : A) : at_most f 0 (ret a).
Proof. intros st. exists []. simpl. rewrite app_nil_r. auto. Qed.

Lemma at_most_throw (e : string) : at_most f 0 (@throw A e).
Proof. intros st. exists []. simpl. rewrite app_nil_r. auto. Qed.

Lemma at_most_weaken (k k' : nat) (m : M A) :
  at_most f k m -> k <= k' -> at_most f k' m.
Proof.
  intros Hm Hk st. destruct (Hm st) as (evs & H & Hc).
  exists evs. split; [assumption|lia].
Qed.

Lemma at_most_bind (k1 k2 : nat) (m : M A) (k : A -> M B) :
  at_most f k1 m -> (forall a, at_most f k2 (k a)) -> at_most f (k1 + k2) (bind m k).
Proof.
  intros Hm Hk st. unfold bind.
  destruct (Hm st) as (e1 & H1 & C1).
  destruct (m st) as [[e|a] st1]; simpl in *.
  - exists e1. split; [assumption|lia].
  - destruct (Hk a st1) as (e2 & H2 & C2).
    exists (e1 ++ e2). rewrite H2, H1, app_assoc, count_events_app.
    split; [reflexivity|lia].
Qed.

Lemma at_most_try_catch (k1 k2 : nat) (m : M A) (handler : string -> M A) :
  at_most f k1 m -> (forall e, at_most f k2 (handler e)) ->
  at_most f (k1 + k2) (try_catch m handler).
Proof.
  intros Hm Hk st. unfold try_catch.
  destruct (Hm st) as (e1 & H1 & C1).
  destruct (m st) as [[e|a] st1]; simpl in *.
  - destruct (Hk e st1) as (e2 & H2 & C2).
    exists (e1 ++ e2). rewrite H2, H1, app_assoc, count_events_app.
    split; [reflexivity|lia].
  - exists e1. split; [assumption|lia].
Qed.

Lemma at_most_if (k1 k2 : nat) (b : bool) (m1 m2 : M A) :
  at_most f k1 m1 -> at_most f k2 m2 ->
  at_most f (Nat.max k1 k2) (if b then m1 else m2).
Proof.
  intros H1 H2. destruct b; eapply at_most_weaken; eauto; lia.
Qed.

End CountLogic.

Lemma at_most_skip {A} (f : Event -> bool) (m : M A) (e : Event) :
  (forall st, trace (snd (m st)) = trace st ++ [e]) -> f e = false -> at_most f 0 m.
Proof.
  intros Hm He st. exists [e]. split; [apply Hm|].
  unfold count_events. simpl. rewrite He. simpl. lia.
Qed.

Lemma at_most_hit {A} (f : Event -> bool) (m : M A) (e : Event) :
  (forall st, trace (snd (m st)) = trace st ++ [e]) -> at_most f 1 m.
Proof.
  intros Hm st. exists [e]. split; [apply Hm|].
  unfold count_events. simpl. destruct (f e); simpl; lia.
Qed.

Lemma console_single (level : Console) (args : list string) (st : State) :
  trace (snd (console level args st)) = trace st ++ [EvConsole level args].
Proof. reflexivity. Qed.

Lemma existsSync_single (p : string) (st : State) :
  trace (snd (existsSync p st)) = trace st ++ [EvExists p].
Proof. reflexivity. Qed.

Lemma execAsync_single (h : Host) (cmd : string) (opts : ExecOptions) (st : State) :
  trace (snd (execAsync h cmd opts st)) = trace st ++ [EvExec cmd opts].
Proof.
  unfold execAsync. destruct (spawn h _ _ _ _) as [[out err|msg] fs']; reflexivity.
Qed.

Ltac single_event :=
  first
    [ apply console_single
    | apply existsSync_single
    | apply mkdirSync_trace
    | apply writeFileSync_trace
    | apply execAsync_single ].

Ltac at_most_step :=
  first
    [ apply at_most_ret
    | apply at_most_throw
    | eapply at_most_skip; [single_event|reflexivity]
    | eapply at_most_hit; single_event
    | eapply at_most_bind; [|intros ?]
    | eapply at_most_try_catch; [|intros ?]
    | eapply at_most_if
    | match goal with
      | |- at_most _ _ (match ?x with (_, _) => _ end) => destruct x
      end ].

Ltac at_most_auto :=
  unfold cloneRepo, cloneRepoBody, parseRepo, detectServerless, serverlessClone,
    gitClone, resolveCacheDir, ensureDir, tryUpdate, cloneAndReturn, cloneAttempt,
    rethrowClone;
  eapply at_most_weaken; [repeat at_most_step|].

(** X10.  A call spawns at most four processes, among them at most one pull
    and at most one clone: nothing is retried. *)
Theorem spawns_are_bounded (h : Host) (repo : string) (st : State) :
  exists evs,
    trace (snd (cloneRepo h repo st)) = trace st ++ evs /\
    count_events is_exec evs <= 4 /\
    count_events is_pull evs <= 1 /\
    count_events is_clone evs <= 1.
Proof.
  assert (H1 : at_most is_exec 4 (cloneRepo h repo)).
  { at_most_auto. vm_compute. lia. }
  assert (H2 : at_most is_pull 1 (cloneRepo h repo)).
  { at_most_auto. vm_compute. lia. }
  assert (H3 : at_most is_clone 1 (cloneRepo h repo)).
  { at_most_auto. vm_compute. lia. }
  destruct (H1 st) as (evs & E1 & C1).
  destruct (H2 st) as (evs2 & E2 & C2).
  destruct (H3 st) as (evs3 & E3 & C3).
  rewrite E1 in E2, E3. apply app_inv_head in E2, E3. subst evs2 evs3.
  exists evs. auto.
Qed.

(** ** The error log *)

Lemma cloneRepoBody_no_console_error (h : Host) (repo : string) :
  emits (fun e => is_console_error e = false) (cloneRepoBody h repo).
Proof.
  unfold cloneRepoBody, parseRepo, detectServerless, serverlessClone,
    gitClone, resolveCacheDir, ensureDir, tryUpdate, cloneAndReturn, cloneAttempt,
    rethrowClone.
  emits_auto; reflexivity.
Qed.

(** X11.  [console.error] is called exactly when the call fails: a failing
    call ends with one error line that carries the message of the cause, a
    call that returns has logged no error line (a failed pull is a
    warning). *)
Theorem error_is_logged (h : Host) (repo : string) (st : State) :
  match cloneRepo h repo st with
  | (inl message, st') =>
      exists cause evs,
        message = wrapError repo cause /\
        trace st' =
          trace st ++ evs ++
          [EvConsole ConsoleError ["Error cloning repository " +:+ repo +:+ ":"; cause]] /\
        Forall (fun e => is_console_error e = false) evs
  | (inr _, st') =>
      exists evs,
        trace st' = trace st ++ evs /\
        Forall (fun e => is_console_error e = false) evs
  end.
Proof.
  rewrite cloneRepo_outerCatch.
  destruct (cloneRepoBody_no_console_error h repo st) as (evs & Ht & Hf).
  destruct (cloneRepoBody h repo st) as [[cause|d] st1]; simpl in *.
  - exists cause, evs. rewrite Ht, <- app_assoc. auto.
  - exists evs. auto.
Qed.

(** ** Hosts without the temp-directory variables *)

(** X12.  On a host that is not Windows and has neither [TEMP] nor [TMP] set
    to a non-empty value, the call is always the serverless one, git
    installed or not: it spawns no process at all, and when it returns the
    directory it returns is the one under [/tmp] and holds the marker. *)
Theorem no_temp_vars_no_git (h : Host) (repo : string) (st : State) :
  platform h <> "win32" ->
  ~ var_truthy h "TEMP" -> ~ var_truthy h "TMP" ->
  (exists evs,
     trace (snd (cloneRepo h repo st)) = trace st ++ evs /\
     Forall (fun e => is_exec e = false) evs) /\
  (forall dir st',
     cloneRepo h repo st = (inr dir, st') ->
     exists owner name,
       repo = owner +:+ "/" +:+ name /\
       dir = cacheDir h owner name true /\
       files st' !! join h dir ".bugsmith-serverless" = Some (File (markerBody repo))).
Proof.
  intros Hw Ht1 Ht2.
  assert (He : envServerless h = true) by (apply envServerless_true_iff; auto 6).
  assert (Hd : detectServerless h st = (inr true, st)).
  { rewrite detectServerless_run, He. reflexivity. }
  destruct (parseRepo repo st) as [[e|[owner name]] st0] eqn:Hp.
  - destruct (parseRepo_inl _ _ _ _ Hp) as (-> & -> & _).
    rewrite cloneRepo_outerCatch. unfold cloneRepoBody, bind. rewrite Hp. simpl.
    split; [|discriminate].
    eexists. split; [reflexivity|]. repeat constructor.
  - destruct (parseRepo_inr _ _ _ _ _ Hp) as (-> & _ & _ & _ & Hrepo & _).
    rewrite (cloneRepo_serverless_stage _ _ _ _ _ _ Hp Hd).
    destruct (serverlessClone_no_exec h repo owner name st) as (evs & Htr & Hf).
    destruct (serverlessClone h repo owner name st) as [[e|d] st1] eqn:E; simpl in *.
    + split; [|discriminate].
      exists (evs ++ [EvConsole ConsoleError ["Error cloning repository " +:+ repo +:+ ":"; e]]).
      rewrite Htr, app_assoc. split; [reflexivity|].
      apply Forall_app. split; [assumption|]. repeat constructor.
    + split; [exists evs; auto|].
      intros dir st' H. injection H as <- <-.
      destruct (serverlessClone_ok _ _ _ _ _ _ _ E) as [Hdir Hfile].
      exists owner, name. auto.
Qed.

Lemma no_temp_vars_no_git_witness :
  platform plain_linux_host <> "win32" /\
  ~ var_truthy plain_linux_host "TEMP" /\
  ~ var_truthy plain_linux_host "TMP" /\
  exists evs,
    trace (snd (cloneRepo plain_linux_host "octocat/Hello-World" (boot empty))) =
      trace (boot empty) ++ evs /\
    Forall (fun e => is_exec e = false) evs.
Proof.
  assert (Hw : platform plain_linux_host <> "win32") by discriminate.
  assert (H1 : ~ var_truthy plain_linux_host "TEMP").
  { intros (v & E & _). vm_compute in E. discriminate. }
  assert (H2 : ~ var_truthy plain_linux_host "TMP").
  { intros (v & E & _). vm_compute in E. discriminate. }
  split; [exact Hw|]. split; [exact H1|]. split; [exact H2|].
  exact (proj1 (no_temp_vars_no_git plain_linux_host "octocat/Hello-World" (boot empty)
                  Hw H1 H2)).
Defined.

(** ** The marker identifies the repository *)

Lemma unescape_head_escape_char (c : ascii) (t : string) :
  unescape_head (Json.escape_char c +:+ t) = Some (c, t).
Proof. destruct c as [[] [] [] [] [] [] [] []]; reflexivity. Qed.

Lemma unescape_head_quote (t : string) : unescape_head (Js.quote +:+ t) = None.
Proof. reflexivity. Qed.

Lemma escape_injective (s1 s2 t1 t2 : string) :
  Json.escape s1 +:+ Js.quote +:+ t1 = Json.escape s2 +:+ Js.quote +:+ t2 ->
  s1 = s2.
Proof.
  revert s2. induction s1 as [|c1 s1 IH]; intros [|c2 s2] H; simpl in H.
  - reflexivity.
  - apply (f_equal unescape_head) in H.
    rewrite string_app_nil_l, string_app_assoc, unescape_head_quote,
      unescape_head_escape_char in H. discriminate.
  - apply (f_equal unescape_head) in H.
    rewrite string_app_nil_l, string_app_assoc, unescape_head_quote,
      unescape_head_escape_char in H. discriminate.
  - apply (f_equal unescape_head) in H.
    rewrite !string_app_assoc, !unescape_head_escape_char in H.
    injection H as -> H. f_equal. apply IH. exact H.
Qed.

(** X13.  The body of the marker file determines the identifier it was
    written for, whatever characters the identifier holds: two identifiers
    with the same marker body are equal. *)
Theorem marker_identifies_repo (repo1 repo2 : string) :
  markerBody repo1 = markerBody repo2 -> repo1 = repo2.
Proof.
  unfold markerBody, Json.stringify. cbn [Json.stringify_fields].
  unfold Json.stringify_field, Json.stringify_value, Json.quote_string.
  cbn [fst snd]. rewrite !string_app_assoc. intros H.
  do 6 apply string_app_inv_head in H.
  apply escape_injective in H. exact H.
Qed.

Lemma marker_identifies_repo_witness :
  markerBody "octocat/Hello-World" = markerBody "octocat/Hello-World" /\
  "octocat/Hello-World" = "octocat/Hello-World".
Proof.
  split; [reflexivity|].
  exact (marker_identifies_repo "octocat/Hello-World" "octocat/Hello-World" eq_refl).
Defined.
